(** * ai-chatbot: the text pacing transform, the provider configuration
      endpoint and the error-aware stream relay

    The development follows three parts of the repository.

    - [Pacing]: [typedTextTransform] of [lib/ai/transform.ts], an async
      [TransformStream] transformer.  Its two callbacks are written as
      programs over the platform calls they make ([Date.now], the timer
      promise, [controller.enqueue], [controller.terminate]); a session
      machine plays the stream machinery, the clock and the consumer.
    - [ProviderConfig]: the [POST] handler of the provider configuration
      route together with [saveProviderConfig] of [lib/providers.ts].
    - [Relay]: the two-phase error reporting of the streaming relay. *)

(** Around them: [ProviderStore] and [ProviderConfigGet] (the other
    queries of [lib/providers.ts] and the [GET] handler of the route),
    [LanguageModels] (the model selection of [lib/ai/providers.ts]),
    [ChatPage] (who sees a chat), [ChatSettingsRoute] (the chat settings
    endpoint), and [McpText] and [McpTools] (pagination, content hash,
    update operations and tool handlers of [mcp/filesystem/index.js]).
    All definitions come first, the facts about them after. *)

From Stdlib Require Import ZArith PrimFloat.
From stdpp Require Import base option list strings gmap.

Local Open Scope Z_scope.

(* ===================================================================== *)
(** * The pacing transform *)
(* ===================================================================== *)

Module Pacing.

(** A stream part as the transformer sees it: the discriminating [type]
    field, which is the only field the code reads, and the remaining
    fields of the part kept as one opaque payload. *)
Record TextStreamPart : Type := mkPart {
  type : string;
  payload : string;
}.

Definition is_text (chunk : TextStreamPart) : bool :=
  String.eqb (type chunk) "text".

(** ** Transformer callbacks as programs

    Each constructor but [Ret] is one call into the platform followed by
    the rest of the callback.  [Await_timer delay] stands for
    [await new Promise((resolve) => setTimeout(resolve, delay))]: the
    callback is suspended there and is resumed by the timer only. *)
Inductive Prog (A : Type) : Type :=
| Ret (a : A)
| Date_now (k : Z → Prog A)
| Get_lastChunkTime (k : Z → Prog A)
| Set_lastChunkTime (t : Z) (k : Prog A)
| Await_timer (delay : Z) (k : Prog A)
| Enqueue (chunk : TextStreamPart) (k : Prog A)
| Terminate (k : Prog A).

Arguments Ret {A} a.
Arguments Date_now {A} k.
Arguments Get_lastChunkTime {A} k.
Arguments Set_lastChunkTime {A} t k.
Arguments Await_timer {A} delay k.
Arguments Enqueue {A} chunk k.
Arguments Terminate {A} k.

Fixpoint prog_bind {A B : Type} (f : A → Prog B) (p : Prog A) : Prog B :=
  match p with
  | Ret a => f a
  | Date_now k => Date_now (λ t, prog_bind f (k t))
  | Get_lastChunkTime k => Get_lastChunkTime (λ t, prog_bind f (k t))
  | Set_lastChunkTime t k => Set_lastChunkTime t (prog_bind f k)
  | Await_timer d k => Await_timer d (prog_bind f k)
  | Enqueue c k => Enqueue c (prog_bind f k)
  | Terminate k => Terminate (prog_bind f k)
  end.

#[export] Instance prog_ret : MRet Prog := λ A a, Ret a.
#[export] Instance prog_mbind : MBind Prog := λ A B f p, prog_bind f p.

Definition date_now : Prog Z := Date_now Ret.
Definition get_lastChunkTime : Prog Z := Get_lastChunkTime Ret.
Definition set_lastChunkTime (t : Z) : Prog unit := Set_lastChunkTime t (Ret ()).
Definition await_timer (delay : Z) : Prog unit := Await_timer delay (Ret ()).
Definition enqueue (chunk : TextStreamPart) : Prog unit := Enqueue chunk (Ret ()).
Definition terminate : Prog unit := Terminate (Ret ()).

(** [const MIN_DELAY_MS = 20] *)
Definition MIN_DELAY_MS : Z := 20.

(** [async transform(chunk, controller)] *)
Definition transform (chunk : TextStreamPart) : Prog unit :=
  now ← date_now;
  lastChunkTime ← get_lastChunkTime;
  let timeSinceLastChunk := now - lastChunkTime in
  (if is_text chunk && (timeSinceLastChunk <? MIN_DELAY_MS)
   then
     let delay := MIN_DELAY_MS - timeSinceLastChunk in
     await_timer delay
   else mret ());;
  enqueue chunk;;
  now' ← date_now;
  set_lastChunkTime now'.

(** [async flush(controller)] *)
Definition flush : Prog unit := terminate.

(** ** The session around one transformer instance *)

(** The readable side of the transform stream: it accepts chunks while
    [Readable]; [controller.terminate()] and a consumer's cancellation
    both close it. *)
Inductive ReadableState : Type := Readable | Closed.

#[export] Instance ReadableState_eq_dec : EqDecision ReadableState.
Proof. solve_decision. Defined.

Record Session : Type := mkSession {
  clock : Z;                       (* what [Date.now()] returns, in ms *)
  lastChunkTime : Z;               (* the closure variable *)
  readable : ReadableState;
  emitted : list (TextStreamPart * Z);  (* chunks enqueued, with the time *)
  enqueue_calls : list (TextStreamPart * Z); (* every [controller.enqueue] *)
  terminations : nat;              (* calls of [controller.terminate] *)
  pending : option (Z * Prog unit);(* timer deadline, suspended callback *)
  cancelled : bool;                (* the consumer has cancelled *)
  rejected : bool;                 (* a callback ended by throwing *)
}.

(** [let lastChunkTime = 0], at the time the stream is created. *)
Definition init (t0 : Z) : Session :=
  {| clock := t0; lastChunkTime := 0; readable := Readable; emitted := [];
     enqueue_calls := []; terminations := 0; pending := None;
     cancelled := false; rejected := false |}.

Definition with_lastChunkTime (t : Z) (s : Session) : Session :=
  {| clock := clock s; lastChunkTime := t; readable := readable s;
     emitted := emitted s; enqueue_calls := enqueue_calls s;
     terminations := terminations s; pending := pending s;
     cancelled := cancelled s; rejected := rejected s |}.

Definition with_clock (t : Z) (s : Session) : Session :=
  {| clock := t; lastChunkTime := lastChunkTime s; readable := readable s;
     emitted := emitted s; enqueue_calls := enqueue_calls s;
     terminations := terminations s; pending := pending s;
     cancelled := cancelled s; rejected := rejected s |}.

Definition with_pending (p : option (Z * Prog unit)) (s : Session) : Session :=
  {| clock := clock s; lastChunkTime := lastChunkTime s; readable := readable s;
     emitted := emitted s; enqueue_calls := enqueue_calls s;
     terminations := terminations s; pending := p;
     cancelled := cancelled s; rejected := rejected s |}.

(** [controller.enqueue(chunk)] on a readable side that still accepts
    chunks. *)
Definition accept (chunk : TextStreamPart) (s : Session) : Session :=
  {| clock := clock s; lastChunkTime := lastChunkTime s; readable := readable s;
     emitted := emitted s ++ [(chunk, clock s)];
     enqueue_calls := enqueue_calls s ++ [(chunk, clock s)];
     terminations := terminations s; pending := pending s;
     cancelled := cancelled s; rejected := rejected s |}.

(** [controller.enqueue(chunk)] on a closed readable side raises a
    [TypeError]: the chunk is not queued and the callback ends there. *)
Definition refuse (chunk : TextStreamPart) (s : Session) : Session :=
  {| clock := clock s; lastChunkTime := lastChunkTime s; readable := readable s;
     emitted := emitted s;
     enqueue_calls := enqueue_calls s ++ [(chunk, clock s)];
     terminations := terminations s; pending := None;
     cancelled := cancelled s; rejected := true |}.

Definition close_readable (s : Session) : Session :=
  {| clock := clock s; lastChunkTime := lastChunkTime s; readable := Closed;
     emitted := emitted s; enqueue_calls := enqueue_calls s;
     terminations := S (terminations s); pending := pending s;
     cancelled := cancelled s; rejected := rejected s |}.

Definition cancel (s : Session) : Session :=
  {| clock := clock s; lastChunkTime := lastChunkTime s; readable := Closed;
     emitted := emitted s; enqueue_calls := enqueue_calls s;
     terminations := terminations s; pending := pending s;
     cancelled := true; rejected := rejected s |}.

(** One synchronous stretch of a callback: it runs until the callback
    returns, throws, or suspends on the timer.  No time passes inside a
    stretch. *)
Fixpoint exec (p : Prog unit) (s : Session) : Session :=
  match p with
  | Ret _ => with_pending None s
  | Date_now k => exec (k (clock s)) s
  | Get_lastChunkTime k => exec (k (lastChunkTime s)) s
  | Set_lastChunkTime t k => exec k (with_lastChunkTime t s)
  | Await_timer delay k => with_pending (Some (clock s + delay, k)) s
  | Enqueue chunk k =>
      match readable s with
      | Readable => exec k (accept chunk s)
      | Closed => refuse chunk s
      end
  | Terminate k => exec k (close_readable s)
  end.

(** What happens to a session, seen from the transformer. *)
Inductive Event : Type :=
| Call_transform (chunk : TextStreamPart) (* the stream calls [transform(chunk)] *)
| Call_flush                      (* upstream ended: the stream calls [flush] *)
| Elapse (d : Z)                  (* [d] ms pass and no timer falls due *)
| TimerFires (late : Z)           (* the timer resolves, [late] ms past its deadline *)
| Cancel.                         (* the consumer cancels the readable side *)

(** The stream never starts a callback while another one is in flight,
    after the readable side was closed or after a callback threw; time
    cannot silently pass a pending deadline.  Such events have no
    successor. *)
Definition idle (s : Session) : bool :=
  bool_decide (pending s = None) && bool_decide (readable s = Readable)
  && negb (rejected s).

Definition step (e : Event) (s : Session) : option Session :=
  match e with
  | Call_transform chunk => if idle s then Some (exec (transform chunk) s) else None
  | Call_flush => if idle s then Some (exec flush s) else None
  | Elapse d =>
      match pending s with
      | Some (deadline, _) =>
          if clock s + d <? deadline then Some (with_clock (clock s + d) s)
          else None
      | None => Some (with_clock (clock s + d) s)
      end
  | TimerFires late =>
      match pending s with
      | Some (deadline, k) => Some (exec k (with_clock (deadline + late) s))
      | None => Some s
      end
  | Cancel => Some (cancel s)
  end.

Fixpoint run (evs : list Event) (s : Session) : option Session :=
  match evs with
  | [] => Some s
  | e :: evs' => s' ← step e s; run evs' s'
  end.

(** An undisturbed session: for each chunk, the time that passes before
    the stream hands it to [transform], the chunk, and how late the timer
    is if the callback waits. *)
Record Arrival : Type := mkArrival {
  gap : Z;
  chunk_of : TextStreamPart;
  late_by : Z;
}.

Definition paced (sched : list Arrival) : list Event :=
  a ← sched; [Elapse (gap a); Call_transform (chunk_of a); TimerFires (late_by a)].

Definition chunks (sched : list Arrival) : list TextStreamPart :=
  chunk_of <$> sched.

(** The part of [transform] after the [await]: lines 20 and 21. *)
Definition resume (chunk : TextStreamPart) : Prog unit :=
  Enqueue chunk (Date_now (λ now', Set_lastChunkTime now' (Ret ()))).

(** The session after [transform(chunk)] has enqueued its chunk and
    stored the time. *)
Definition forwarded (chunk : TextStreamPart) (s : Session) : Session :=
  with_pending None (with_lastChunkTime (clock s) (accept chunk s)).

(** The claim that cancellation abandons a pending delay: once the
    consumer has cancelled after the events [before], no delay is pending
    any more, and whatever happens [after], no further chunk is emitted
    and no callback throws. *)
Definition delay_abandoned_on_cancel
    (before after : list Event) (t0 : Z) : Prop :=
  ∀ s s', run (before ++ [Cancel]) (init t0) = Some s →
          run after s = Some s' →
          pending s = None ∧ emitted s' = emitted s ∧ rejected s' = false.

(** The claim that the wait is bounded: whatever the events [before] were
    since the stream was created at [t0], a call of [transform] either
    enqueues its chunk at once, or sets a timer whose delay is above 0 and
    at most [MIN_DELAY_MS]. *)
Definition delay_bounded (before : list Event) (t0 : Z)
    (chunk : TextStreamPart) : Prop :=
  ∀ s s', run before (init t0) = Some s →
          step (Call_transform chunk) s = Some s' →
          match pending s' with
          | Some (deadline, _) => 0 < deadline - clock s ≤ MIN_DELAY_MS
          | None => emitted s' = emitted s ++ [(chunk, clock s)]
          end.

(** When the chunk of an arrival is enqueued, for a session whose last
    enqueue was at [lastChunkTime]. *)
Definition emit_time (a : Arrival) (s : Session) : Z :=
  let now := clock s + gap a in
  if is_text (chunk_of a) && (now - lastChunkTime s <? MIN_DELAY_MS)
  then lastChunkTime s + MIN_DELAY_MS + late_by a
  else now.

(** Every text chunk that follows another chunk was enqueued at least
    [MIN_DELAY_MS] after it. *)
Definition spaced (out : list (TextStreamPart * Z)) : Prop :=
  ∀ (i : nat) c1 t1 c2 t2,
    out !! i = Some (c1, t1) → out !! S i = Some (c2, t2) →
    type c2 = "text" → t1 + MIN_DELAY_MS ≤ t2.

(** The stored timestamp is the time of the last enqueue. *)
Definition stamped (s : Session) : Prop :=
  ∀ c t, last (emitted s) = Some (c, t) → lastChunkTime s = t.

End Pacing.

(* ===================================================================== *)
(** * The provider configuration endpoint *)
(* ===================================================================== *)

Module ProviderConfig.

(** The value [request.json()] resolves to.  An object is kept as the
    list of its members; a number is the double it parses to. *)
#[local] Unset Elimination Schemes.
Inductive Json : Type :=
| JNull
| JBool (b : bool)
| JNumber (x : float)
| JString (s : string)
| JArray (items : list Json)
| JObject (members : list (string * Json)).
#[local] Set Elimination Schemes.

(** A JavaScript value read out of the body: [None] is [undefined]. *)
Definition Value : Type := option Json.

(** [!v] is [false]: every value but [undefined], [null], [false], [0],
    [-0], [NaN] and the empty string. *)
Definition truthy (v : Value) : bool :=
  match v with
  | None | Some JNull => false
  | Some (JBool b) => b
  | Some (JNumber x) => negb (PrimFloat.eqb x 0 || negb (PrimFloat.eqb x x))
  | Some (JString s) => negb (String.eqb s "")
  | Some (JArray _) | Some (JObject _) => true
  end.

Fixpoint lookup_member (name : string) (members : list (string * Json))
    : Value :=
  match members with
  | [] => None
  | (key, v) :: rest =>
      if String.eqb key name then Some v else lookup_member name rest
  end.

(** [body.name] for a body that is neither [null] nor [undefined]: only
    an object has members of its own under the two names read here. *)
Definition property (name : string) (body : Json) : Value :=
  match body with
  | JObject members => lookup_member name members
  | _ => None
  end.

(** [const { provider, apiKey } = body]: a [TypeError] on [null]. *)
Definition destructure (body : Json) : option (Value * Value) :=
  match body with
  | JNull => None
  | _ => Some (property "provider" body, property "apiKey" body)
  end.

(** [provider !== s] is [false]: the value is the string [s]. *)
Definition strict_eq (v : Value) (s : string) : bool :=
  match v with
  | Some (JString s') => String.eqb s' s
  | _ => false
  end.

(** [type ProviderType = "openrouter" | "deepinfra"] *)
Inductive ProviderType : Type := openrouter | deepinfra.

#[export] Instance ProviderType_eq_dec : EqDecision ProviderType.
Proof. solve_decision. Defined.

#[export] Instance ProviderType_countable : Countable ProviderType.
Proof.
  refine (inj_countable'
            (λ p, match p with openrouter => true | deepinfra => false end)
            (λ b : bool, if b then openrouter else deepinfra) _).
  intros []; reflexivity.
Defined.

(** [provider as ProviderType] *)
Definition as_ProviderType (provider : Value) : option ProviderType :=
  if strict_eq provider "openrouter" then Some openrouter
  else if strict_eq provider "deepinfra" then Some deepinfra
  else None.

(** [session?.user?.id] *)
Record User : Type := mkUser { id : option string }.
Record AuthSession : Type := mkAuthSession { user : option User }.

Definition user_id (session : option AuthSession) : option string :=
  s ← session; u ← user s; i ← id u;
  if String.eqb i "" then None else Some i.

(** The request: [json] is [None] when the body does not parse, in which
    case [request.json()] throws. *)
Record NextRequest : Type := mkRequest { json : option Json }.

Record NextResponse : Type := mkResponse {
  status : nat;
  data : Json;
}.

(** [NextResponse.json(data)] and [NextResponse.json(data, { status })]. *)
Definition respond (data : Json) : NextResponse := mkResponse 200 data.
Definition respond_error (message : string) (status : nat) : NextResponse :=
  mkResponse status (JObject [("error", JString message)]).

Definition saved_successfully : Json :=
  JObject [("success", JBool true);
           ("message", JString "Provider configuration saved successfully")].

Section Handler.

(** The storage and [saveProviderConfig] of [lib/db/queries]; [None]
    when the call throws. *)
Context {Store : Type}.
Variable save : string → ProviderType → Value → Store → option Store.

(** The body of the [try] block; [None] when an exception is raised. *)
Definition POST_try (session : option AuthSession) (request : NextRequest)
    (db : Store) : option (NextResponse * Store) :=
  match user_id session with
  | None => Some (respond_error "Unauthorized" 401, db)
  | Some uid =>
      body ← json request;
      '(provider, apiKey) ← destructure body;
      if negb (truthy provider) || negb (truthy apiKey)
      then Some (respond_error "Provider and API key are required" 400, db)
      else if negb (strict_eq provider "openrouter")
              && negb (strict_eq provider "deepinfra")
      then Some (respond_error "Invalid provider" 400, db)
      else
        p ← as_ProviderType provider;
        db' ← save uid p apiKey db;
        Some (respond saved_successfully, db')
  end.

(** [export async function POST(request)] *)
Definition POST (session : option AuthSession) (request : NextRequest)
    (db : Store) : NextResponse * Store :=
  match POST_try session request db with
  | Some result => result
  | None =>
      (respond_error "Failed to save provider configuration" 500, db)
  end.

End Handler.

(** Both [provider] and [apiKey] are present in the body and [provider]
    is exactly ["openrouter"] or ["deepinfra"]. *)
Definition complete (body : Json) : bool :=
  truthy (property "provider" body) && truthy (property "apiKey" body)
  && (strict_eq (property "provider" body) "openrouter"
      || strict_eq (property "provider" body) "deepinfra").

(** The claim that every other body of an authenticated request is
    answered with 400 and leaves the storage alone. *)
Definition other_body_gets_400 {Store : Type}
    (save : string → ProviderType → Value → Store → option Store)
    (session : option AuthSession) (request : NextRequest) (db : Store)
    : Prop :=
  is_Some (user_id session) →
  (∀ body, json request = Some body → complete body = false) →
  status (POST save session request db).1 = 400%nat ∧
  (POST save session request db).2 = db.

(** [saveProviderConfig] as [lib/providers.ts] has it: one row for each
    user and provider; a second save for the same pair replaces the key
    and the update time and keeps the row's id and creation time.  The
    key is a string in the signature and the column is a text column: the
    row holds a string key as it was given. *)
Record ProviderConfigRow : Type := mkRow {
  row_id : string;
  createdAt : Z;
  updatedAt : Z;
  apiKey : Value;
}.

Definition saveProviderConfig (now : Z) (uuid : string)
    (userId : string) (provider : ProviderType) (key : Value)
    (db : gmap (string * ProviderType) ProviderConfigRow)
    : option (gmap (string * ProviderType) ProviderConfigRow) :=
  Some (match db !! (userId, provider) with
        | Some row =>
            <[(userId, provider) :=
                mkRow (row_id row) (createdAt row) now key]> db
        | None => <[(userId, provider) := mkRow uuid now now key]> db
        end).

End ProviderConfig.

(* ===================================================================== *)
(** * The stream relay *)
(* ===================================================================== *)

Module Relay.

(** Modelled from the spec: the stream relay.  Its implementation is not
    among the sources of the repository; they only hold the streaming
    guide whose error protocol the spec describes.  The definitions below
    follow the spec's state machine ([NOT_STARTED], [STREAMING], [ENDED],
    [ERRORED]), its wire framing and its classification of failures. *)
Inductive RelayState : Type := NOT_STARTED | STREAMING | ENDED | ERRORED.

(** The classified causes of an upstream failure. *)
Inductive Cause : Type :=
| InvalidInput
| InvalidApiKey
| InsufficientCredits
| RateLimited
| ProviderError
| NoProviderAvailable.

Inductive CauseClass : Type :=
| invalid_input | auth_failure | rate_limiting | upstream_unavailability.

Definition classify (c : Cause) : CauseClass :=
  match c with
  | InvalidInput => invalid_input
  | InvalidApiKey | InsufficientCredits => auth_failure
  | RateLimited => rate_limiting
  | ProviderError | NoProviderAvailable => upstream_unavailability
  end.

(** The HTTP status of a failure that is reported before anything was
    sent. *)
Definition error_status (c : Cause) : nat :=
  match c with
  | InvalidInput => 400
  | InvalidApiKey => 401
  | InsufficientCredits => 402
  | RateLimited => 429
  | ProviderError => 502
  | NoProviderAvailable => 503
  end.

Record Failure : Type := mkFailure {
  cause : Cause;
  code : string;
  message : string;
}.

Record Usage : Type := mkUsage {
  prompt_tokens : nat;
  completion_tokens : nat;
}.

(** What the upstream provider delivers. *)
Inductive Upstream : Type :=
| UpChunk (content : string)
| UpFailure (f : Failure)
| UpEnd (u : Usage).

(** The fields every event of one response shares. *)
Record Meta : Type := mkMeta {
  meta_id : string;
  meta_created : Z;
  meta_model : string;
  meta_provider : string;
}.

(** One [data:] event of the wire framing. *)
Record SseEvent : Type := mkEvent {
  ev_id : string;
  ev_object : string;
  ev_created : Z;
  ev_model : string;
  ev_provider : string;
  ev_content : string;                  (* choices[0].delta.content *)
  ev_finish_reason : option string;     (* choices[0].finish_reason *)
  ev_usage : option Usage;
  ev_error : option (string * string);  (* error.code, error.message *)
}.

Definition event (m : Meta) (content : string)
    (finish_reason : option string) (usage : option Usage)
    (error : option (string * string)) : SseEvent :=
  mkEvent (meta_id m) "chat.completion.chunk" (meta_created m) (meta_model m)
    (meta_provider m) content finish_reason usage error.

Definition chunk_event (m : Meta) (content : string) : SseEvent :=
  event m content None None None.

Definition error_event (m : Meta) (f : Failure) : SseEvent :=
  event m "" (Some "error") None (Some (code f, message f)).

Definition final_event (m : Meta) (u : Usage) : SseEvent :=
  event m "" (Some "stop") (Some u) None.

(** The downstream connection: the status line once it is committed, the
    JSON error body of a response that never streamed, the events sent. *)
Record Connection : Type := mkConnection {
  relay_state : RelayState;
  http_status : option nat;
  error_body : option (string * string);  (* {"error": {code, message}} *)
  sse_events : list SseEvent;
  closed : bool;
}.

Definition connect : Connection := mkConnection NOT_STARTED None None [] false.

(** One transition of the relay.  The spec gives no transition for an
    upstream that ends before its first chunk: [None].  The terminal
    states take no further input. *)
Definition relay_step (m : Meta) (u : Upstream) (c : Connection)
    : option Connection :=
  match relay_state c, u with
  | NOT_STARTED, UpChunk x =>
      Some (mkConnection STREAMING (Some 200%nat) None [chunk_event m x] false)
  | NOT_STARTED, UpFailure f =>
      Some (mkConnection ERRORED (Some (error_status (cause f)))
              (Some (code f, message f)) [] true)
  | NOT_STARTED, UpEnd _ => None
  | STREAMING, UpChunk x =>
      Some (mkConnection STREAMING (http_status c) (error_body c)
              (sse_events c ++ [chunk_event m x]) false)
  | STREAMING, UpFailure f =>
      Some (mkConnection ERRORED (http_status c) (error_body c)
              (sse_events c ++ [error_event m f]) true)
  | STREAMING, UpEnd u =>
      Some (mkConnection ENDED (http_status c) (error_body c)
              (sse_events c ++ [final_event m u]) true)
  | ENDED, _ | ERRORED, _ => Some c
  end.

Fixpoint relay (m : Meta) (ups : list Upstream) (c : Connection)
    : option Connection :=
  match ups with
  | [] => Some c
  | u :: ups' => c' ← relay_step m u c; relay m ups' c'
  end.

End Relay.

(* ===================================================================== *)
(** * Undisturbed sessions of the pacing transform, by arrival times *)
(* ===================================================================== *)

Module PacingSchedule.
Import Pacing.

(** The clock readings at which the stream hands the chunks of a schedule
    to [transform] when no call ever waits: each chunk arrives [gap] ms
    after the one before it was handed over. *)
Fixpoint arrivals (t : Z) (sched : list Arrival)
    : list (TextStreamPart * Z) :=
  match sched with
  | [] => []
  | a :: rest => (chunk_of a, t + gap a) :: arrivals (t + gap a) rest
  end.

End PacingSchedule.

(* ===================================================================== *)
(** * The provider configuration queries of [lib/providers.ts] *)
(* ===================================================================== *)

Module ProviderStore.
Import ProviderConfig.

(** The [providerConfig] table: at most one row for each pair of user and
    provider, the target of the conflict clause of [saveProviderConfig]. *)
Abbreviation Table := (gmap (string * ProviderType) ProviderConfigRow).

(** The conditions [eq(providerConfig.userId, userId)] and
    [eq(providerConfig.provider, provider)]. *)
Inductive SQL : Type :=
| eq_userId (userId : string)
| eq_provider (provider : ProviderType).

(** [a && b] on two condition objects: an object is truthy, so the value
    of the expression is its right operand. *)
Definition js_and (a b : SQL) : SQL := b.

Definition holds (cond : SQL) (key : string * ProviderType) : bool :=
  match cond with
  | eq_userId userId => bool_decide (key.1 = userId)
  | eq_provider provider => bool_decide (key.2 = provider)
  end.

(** [.from(providerConfig).where(cond)] and
    [.delete(providerConfig).where(cond)]. *)
Definition select_where (cond : SQL) (db : Table) : Table :=
  filter (λ kr, holds cond kr.1 = true) db.

Definition delete_where (cond : SQL) (db : Table) : Table :=
  filter (λ kr, holds cond kr.1 = false) db.

Section Queries.

(** The order in which the database returns the rows of a result; the
    queries ask for none. *)
Variable scan : Table → list ((string * ProviderType) * ProviderConfigRow).

(** [getProviderConfig]: [result[0]?.apiKey] after [.limit(1)]. *)
Definition getProviderConfig (userId : string) (provider : ProviderType)
    (db : Table) : Value :=
  let result :=
    take 1 (scan (select_where
                    (js_and (eq_userId userId) (eq_provider provider)) db)) in
  match result !! 0%nat with
  | Some row => apiKey row.2
  | None => None
  end.

(** [getAllProviderConfigs] *)
Definition getAllProviderConfigs (userId : string) (db : Table)
    : list ((string * ProviderType) * ProviderConfigRow) :=
  scan (select_where (eq_userId userId) db).

End Queries.

(** [deleteProviderConfig] *)
Definition deleteProviderConfig (userId : string) (provider : ProviderType)
    (db : Table) : Table :=
  delete_where (js_and (eq_userId userId) (eq_provider provider)) db.

End ProviderStore.

(* ===================================================================== *)
(** * The language model selection of [lib/ai/providers.ts] *)
(* ===================================================================== *)

Module LanguageModels.

(** [s.startsWith(pat)], [s.includes(pat)] and the base of [s] before a
    final [suffix], on strings as sequences of code units. *)
Fixpoint startsWith (pat s : string) : bool :=
  match pat, s with
  | EmptyString, _ => true
  | String a pat', String b s' => Ascii.eqb a b && startsWith pat' s'
  | String _ _, EmptyString => false
  end.

Fixpoint includes (s pat : string) : bool :=
  startsWith pat s ||
  match s with
  | EmptyString => false
  | String _ s' => includes s' pat
  end.

Fixpoint before_suffix (suffix s : string) : option string :=
  if String.eqb s suffix then Some EmptyString
  else match s with
       | EmptyString => None
       | String a s' => String a <$> before_suffix suffix s'
       end.

(** [s.endsWith(suffix)] *)
Definition endsWith (s suffix : string) : bool :=
  bool_decide (is_Some (before_suffix suffix s)).

(** [const THINKING_SUFFIX_REGEX = /-thinking$/] and
    [modelId.replace(THINKING_SUFFIX_REGEX, "")]. *)
Definition remove_thinking_suffix (modelId : string) : string :=
  default modelId (before_suffix "-thinking" modelId).

(** [!key] is [false] for a key that is a non-empty string. *)
Definition present (key : option string) : bool :=
  match key with
  | Some k => negb (String.eqb k "")
  | None => false
  end.

(** What the provider calls return, by the call that made it. *)
Inductive LanguageModel : Type :=
| mock_languageModel (modelId : string)
| openrouter_languageModel (apiKey modelId : string)
| openrouter_reasoning (apiKey gatewayModelId tagName : string).

(** [myProvider.languageModel(modelId)] of the test environment: the
    custom provider holds four models and has no fallback, so the call
    throws for any other id. *)
Definition myProvider_languageModel (modelId : string)
    : option LanguageModel :=
  if bool_decide (modelId ∈ ["chat-model"; "chat-model-reasoning";
                             "title-model"; "artifact-model"])
  then Some (mock_languageModel modelId)
  else None.

Section Selection.

(** [isTestEnvironment] of [lib/constants] and
    [process.env.OPENROUTER_API_KEY]. *)
Variable isTestEnvironment : bool.
Variable DEFAULT_API_KEY : option string.

(** [createOpenRouterClient]: the key the client is created with; [None]
    when it throws. *)
Definition createOpenRouterClient (apiKey : option string) : option string :=
  let key := if present apiKey then apiKey else DEFAULT_API_KEY in
  if negb (present key) then None else key.

(** [getLanguageModel]; [stored] is what [getProviderApiKey(userId,
    provider)] resolves to. *)
Definition getLanguageModel (modelId : string) (stored : option string)
    : option LanguageModel :=
  if isTestEnvironment then myProvider_languageModel modelId
  else
    apiKey ← createOpenRouterClient stored;
    let isReasoningModel :=
      includes modelId "reasoning" || endsWith modelId "-thinking" in
    if isReasoningModel then
      let gatewayModelId := remove_thinking_suffix modelId in
      Some (openrouter_reasoning apiKey gatewayModelId "thinking")
    else Some (openrouter_languageModel apiKey modelId).

(** [getTitleModel] and [getArtifactModel] *)
Definition getTitleModel (stored : option string) : option LanguageModel :=
  if isTestEnvironment then myProvider_languageModel "title-model"
  else
    apiKey ← createOpenRouterClient stored;
    Some (openrouter_languageModel apiKey "xiaomi/mimo-v2-flash:free").

Definition getArtifactModel (stored : option string) : option LanguageModel :=
  if isTestEnvironment then myProvider_languageModel "artifact-model"
  else
    apiKey ← createOpenRouterClient stored;
    Some (openrouter_languageModel apiKey "xiaomi/mimo-v2-flash:free").

End Selection.

(** The key a model was created with, if it has one. *)
Definition key_of (m : LanguageModel) : option string :=
  match m with
  | mock_languageModel _ => None
  | openrouter_languageModel k _ | openrouter_reasoning k _ _ => Some k
  end.

End LanguageModels.

(* ===================================================================== *)
(** * The chat page of [app/(chat)/chat/[id]/page.tsx] *)
(* ===================================================================== *)

Module ChatPage.
Import ProviderConfig.

(** The row [getChatWithSettings({ id })] resolves to, with the columns
    the page reads; a nullable column is [None] when it is [null]. *)
Record Chat : Type := mkChat {
  chat_id : string;
  chat_userId : string;
  visibility : string;
  model : option string;
  systemInstruction : option string;
  temperature : option string;
}.

(** [value || undefined] and the operands of [a || b] on nullable
    strings: the empty string counts as missing. *)
Definition or_undefined (value : option string) : option string :=
  match value with
  | Some v => if String.eqb v "" then None else Some v
  | None => None
  end.

(** [Partial<ChatSettings>] as the page fills it. *)
Record InitialSettings : Type := mkInitialSettings {
  settings_model : option string;
  settings_systemInstruction : option string;
  settings_temperature : option string;
}.

Section Page.

Context {Message UIMessage : Type}.
(** [convertToUIMessages] of [lib/utils] and [DEFAULT_CHAT_MODEL] of
    [lib/ai/models]. *)
Variable convertToUIMessages : list Message → list UIMessage.
Variable DEFAULT_CHAT_MODEL : string.

(** The props of the [Chat] component. *)
Record ChatProps : Type := mkChatProps {
  autoResume : bool;
  id : string;
  initialChatModel : string;
  initialMessages : list UIMessage;
  initialVisibilityType : string;
  isReadonly : bool;
  initialSettings : InitialSettings;
}.

(** How the page ends: [redirect(path)] and [notFound()] do not return. *)
Inductive Outcome : Type :=
| redirect (path : string)
| notFound
| render (props : ChatProps).

(** [session.user.id !== chat.userId] is [false] *)
Definition is_owner (u : option User) (chat : Chat) : bool :=
  bool_decide ((u ≫= ProviderConfig.id) = Some (chat_userId chat)).

(** [async function ChatPage]: [chat] is the row found for the id,
    [messagesFromDb] its messages, [cookie] the value of the
    [chat-model] cookie. *)
Definition ChatPage (chat : option Chat) (session : option AuthSession)
    (messagesFromDb : list Message) (cookie : option string) : Outcome :=
  match chat with
  | None => redirect "/"
  | Some chat =>
      match session with
      | None => redirect "/api/auth/guest"
      | Some session =>
          if String.eqb (visibility chat) "private"
             && (negb (bool_decide (is_Some (user session)))
                 || negb (is_owner (user session) chat))
          then notFound
          else
            let uiMessages := convertToUIMessages messagesFromDb in
            let chatModel :=
              match or_undefined (model chat) with
              | Some m => m
              | None =>
                  match or_undefined cookie with
                  | Some c => c
                  | None => DEFAULT_CHAT_MODEL
                  end
              end in
            let chatSettings :=
              mkInitialSettings (or_undefined (model chat))
                (or_undefined (systemInstruction chat))
                (or_undefined (temperature chat)) in
            render (mkChatProps true (chat_id chat) chatModel uiMessages
                      (visibility chat)
                      (negb (is_owner (user session) chat))
                      chatSettings)
      end
  end.

End Page.

End ChatPage.

(* ===================================================================== *)
(** * The text utilities of [mcp/filesystem/index.js] *)
(* ===================================================================== *)

Module McpText.

(** A JavaScript string as the sequence of its UTF-16 code units;
    [LF] is ["\n"]. *)
Abbreviation jsstring := (list Z).

Definition LF : Z := 10.

(** [content.split("\n")]: never the empty array. *)
Fixpoint split_lines (content : jsstring) : list jsstring :=
  match content with
  | [] => [[]]
  | c :: rest =>
      if c =? LF then [] :: split_lines rest
      else match split_lines rest with
           | line :: lines => (c :: line) :: lines
           | [] => [[c]]
           end
  end.

(** [lines.join("\n")] *)
Fixpoint join_lines (lines : list jsstring) : jsstring :=
  match lines with
  | [] => []
  | [line] => line
  | line :: rest => line ++ LF :: join_lines rest
  end.

(** [estimateTokens]: [Math.ceil(text.length / 4)] *)
Definition estimateTokens (text : jsstring) : Z :=
  (Z.of_nat (length text) + 3) / 4.

Record Page : Type := mkPage {
  page_content : jsstring;
  tokenCount : Z;
}.

(** The variables of the loop of [paginateByTokens]. *)
Record Paging : Type := mkPaging {
  pages : list Page;
  currentPage : list jsstring;
  currentTokenCount : Z;
}.

(** One iteration of [for (const line of lines)]. *)
Definition paginate_step (maxTokensPerPage : Z) (st : Paging)
    (line : jsstring) : Paging :=
  let lineTokens := estimateTokens (line ++ [LF]) in
  if (maxTokensPerPage <? currentTokenCount st + lineTokens)
     && (0 <? length (currentPage st))%nat
  then mkPaging
         (pages st ++ [mkPage (join_lines (currentPage st))
                         (currentTokenCount st)])
         [line] lineTokens
  else mkPaging (pages st) (currentPage st ++ [line])
         (currentTokenCount st + lineTokens).

(** [paginateByTokens(content, maxTokensPerPage)] *)
Definition paginateByTokens (content : jsstring) (maxTokensPerPage : Z)
    : list Page :=
  let st := foldl (paginate_step maxTokensPerPage) (mkPaging [] [] 0)
              (split_lines content) in
  if (0 <? length (currentPage st))%nat
  then pages st ++ [mkPage (join_lines (currentPage st))
                      (currentTokenCount st)]
  else pages st.

(** The token estimate of a group of lines, as the loop adds it up. *)
Definition line_tokens (lines : list jsstring) : Z :=
  foldr (λ line acc, estimateTokens (line ++ [LF]) + acc) 0 lines.

(** ** The content hash of the read tracker *)

(** [ToInt32], and [x << n] and [x & y] on numbers. *)
Definition ToInt32 (x : Z) : Z :=
  (x + 2147483648) mod 4294967296 - 2147483648.

Definition shl (x n : Z) : Z := ToInt32 (Z.shiftl (ToInt32 x) (Z.land n 31)).

Definition bitand (x y : Z) : Z := Z.land (ToInt32 x) (ToInt32 y).

(** The body of the loop of [hashContent], for the code unit [char]. *)
Definition hash_step (hash char : Z) : Z :=
  let hash := shl hash 5 - hash + char in
  bitand hash hash.

(** [n.toString(36)] for an integer [n]. *)
Definition digit36 (d : Z) : Z := if d <? 10 then 48 + d else 87 + d.

Fixpoint digits36 (fuel : nat) (n : Z) (acc : jsstring) : jsstring :=
  match fuel with
  | O => acc
  | S fuel' =>
      let acc' := digit36 (n mod 36) :: acc in
      if n / 36 =? 0 then acc' else digits36 fuel' (n / 36) acc'
  end.

Definition toString36 (n : Z) : jsstring :=
  let fuel := S (Z.to_nat (Z.log2 (Z.abs n))) in
  if n <? 0 then 45 :: digits36 fuel (- n) [] else digits36 fuel n [].

(** [hashContent(content)] *)
Definition hashContent (content : jsstring) : jsstring :=
  toString36 (foldl hash_step 0 content).

(** The polynomial [c0 * 31^(n-1) + ... + c(n-1)] of the code units. *)
Definition poly31 (content : jsstring) : Z :=
  foldl (λ h c, 31 * h + c) 0 content.

(** A page made of the group of lines [g]. *)
Definition grouped (maxTokensPerPage : Z) (g : list jsstring) (p : Page)
    : Prop :=
  g ≠ [] ∧ page_content p = join_lines g ∧ tokenCount p = line_tokens g ∧
  (line_tokens g ≤ maxTokensPerPage ∨ length g = 1%nat).

(** The loop of [paginateByTokens] after the lines [done]. *)
Definition paging_inv (maxTokensPerPage : Z) (st : Paging)
    (done : list jsstring) : Prop :=
  ∃ gs, Forall2 (grouped maxTokensPerPage) gs (pages st) ∧
        concat gs ++ currentPage st = done ∧
        currentTokenCount st = line_tokens (currentPage st) ∧
        (currentTokenCount st ≤ maxTokensPerPage
         ∨ (length (currentPage st) ≤ 1)%nat) ∧
        (currentPage st = [] → done = []).

Definition total_tokens (ps : list Page) : Z :=
  foldr (λ p acc, tokenCount p + acc) 0 ps.

End McpText.

(* ===================================================================== *)
(** * The tools of [mcp/filesystem/index.js] *)
(* ===================================================================== *)

(** The handlers of [read_file], [update_file] and [write_file], the
    update operations and the read tracker.  What a handler returns is
    kept as the [return] statement it ends in; the text of the messages is
    not part of the model. *)
Module McpTools.
Import McpText.

(** ** The update operations *)

Inductive UpdateType : Type :=
| Replace | Regex | Line | Insert | Append | Prepend.

#[export] Instance UpdateType_eq_dec : EqDecision UpdateType.
Proof. solve_decision. Defined.

(** One element of [updates]; an optional field is [None] when it is
    [undefined], and a line number is an integer. *)
Record Update : Type := mkUpdate {
  type : UpdateType;
  old_string : option jsstring;
  new_string : jsstring;
  pattern : option jsstring;
  line_number : option Z;
  global : bool;
  case_sensitive : bool;
}.

(** [s.endsWith("\n")] *)
Definition ends_with_LF (s : jsstring) : bool :=
  match last s with
  | Some c => c =? LF
  | None => false
  end.

(** [case "append"] and [case "prepend"] *)
Definition op_append (content new_string : jsstring) : jsstring :=
  content ++ (if ends_with_LF content then [] else [LF]) ++ new_string.

Definition op_prepend (content new_string : jsstring) : jsstring :=
  new_string ++ (if ends_with_LF new_string then [] else [LF]) ++ content.

(** [case "line"], for a line number that is given *)
Definition op_line (content : jsstring) (line_number : Z)
    (new_string : jsstring) : jsstring :=
  let lineArray := split_lines content in
  if (0 <? line_number) && (line_number <=? Z.of_nat (length lineArray))
  then join_lines (<[Z.to_nat (line_number - 1) := new_string]> lineArray)
  else content.

(** [case "insert"], for a line number that is given:
    [insertArray.splice(line_number, 0, new_string)] *)
Definition op_insert (content : jsstring) (line_number : Z)
    (new_string : jsstring) : jsstring :=
  let insertArray := split_lines content in
  if (0 <=? line_number) && (line_number <=? Z.of_nat (length insertArray))
  then join_lines (take (Z.to_nat line_number) insertArray
                   ++ new_string :: drop (Z.to_nat line_number) insertArray)
  else content.

(** [content.split(sep)] for a separator that is not empty, and
    [pieces.join(sep)]. *)
Fixpoint starts_with (pat s : jsstring) : bool :=
  match pat, s with
  | [], _ => true
  | a :: pat', b :: s' => (a =? b) && starts_with pat' s'
  | _ :: _, [] => false
  end.

Fixpoint split_go (sep s : jsstring) (skip : nat) (piece : jsstring)
    : list jsstring :=
  match s with
  | [] => [piece]
  | c :: rest =>
      match skip with
      | S skip' => split_go sep rest skip' piece
      | O =>
          if starts_with sep s
          then piece :: split_go sep rest (length sep - 1) []
          else split_go sep rest 0 (piece ++ [c])
      end
  end.

Definition split_on (sep s : jsstring) : list jsstring := split_go sep s 0 [].

Fixpoint join_with (sep : jsstring) (pieces : list jsstring) : jsstring :=
  match pieces with
  | [] => []
  | [piece] => piece
  | piece :: rest => piece ++ sep ++ join_with sep rest
  end.

(** [content.includes(text)] *)
Fixpoint includes (content text : jsstring) : bool :=
  starts_with text content ||
  match content with
  | [] => false
  | _ :: rest => includes rest text
  end.

(** [old_string.replace(/[.*+?^${}()|[\]\\]/g, "\\$&")] *)
Definition is_special (c : Z) : bool :=
  bool_decide (c ∈ [46; 42; 43; 63; 94; 36; 123; 125; 40; 41; 124; 91; 93; 92]).

Definition escape_regexp (text : jsstring) : jsstring :=
  c ← text; if is_special c then [92; c] else [c].

(** [updates.filter(...)] of the two phases *)
Definition is_text_op (u : Update) : bool :=
  bool_decide (type u ∈ [Replace; Regex; Append; Prepend]).

Definition is_line_op (u : Update) : bool :=
  bool_decide (type u ∈ [Line; Insert]).

(** [lineOps.sort((a, b) => lineB - lineA)] with a missing line number
    counted as [Infinity]: descending, elements that compare equal stay in
    their order. *)
Definition key_lt (a b : option Z) : bool :=
  match a, b with
  | Some x, Some y => x <? y
  | Some _, None => true
  | None, _ => false
  end.

Fixpoint insert_desc (u : Update) (sorted : list Update) : list Update :=
  match sorted with
  | [] => [u]
  | v :: rest =>
      if key_lt (line_number v) (line_number u) then u :: v :: rest
      else v :: insert_desc u rest
  end.

Definition sort_desc (ops : list Update) : list Update :=
  foldl (λ sorted u, insert_desc u sorted) [] ops.

(** The second phase, [for (const update of sortedLineOps)]; [None] when
    an operation throws. *)
Definition apply_line_op (u : Update) (content : jsstring)
    : option jsstring :=
  match type u with
  | Line => n ← line_number u; Some (op_line content n (new_string u))
  | Insert => n ← line_number u; Some (op_insert content n (new_string u))
  | _ => Some content
  end.

Definition apply_line_ops (ops : list Update) (content : jsstring)
    : option jsstring :=
  foldl (λ acc u, c ← acc; apply_line_op u c) (Some content) ops.

(** ** The read tracker *)

Record ReadInfo : Type := mkReadInfo {
  contentHash : jsstring;
  size : nat;
  timestamp : Z;
}.

Record Tracker : Type := mkTracker {
  lastReadFile : option jsstring;
  lastReadContent : option ReadInfo;
}.

(** The tracker of a server that has just started, and [clear()]. *)
Definition clear : Tracker := mkTracker None None.

(** [markAsRead(filePath, content)], at clock reading [now] *)
Definition markAsRead (now : Z) (filePath content : jsstring) : Tracker :=
  mkTracker (Some filePath)
    (Some (mkReadInfo (hashContent content) (length content) now)).

(** [isLastReadFile(filePath)] *)
Definition isLastReadFile (filePath : jsstring) (t : Tracker) : bool :=
  bool_decide (lastReadFile t = Some filePath).

(** ** The handlers *)

(** How [fs.readFile(path, "utf8")] ends. *)
Inductive ReadOutcome : Type :=
| read_ok (text : jsstring)
| read_ENOENT
| read_failed.

(** The content of [write_file]: a string, or an object or array. *)
Inductive WriteContent (Json : Type) : Type :=
| content_text (text : jsstring)
| content_json (value : Json).
Arguments content_text {Json} text.
Arguments content_json {Json} value.

(** The [return] statement a handler ends in. *)
Inductive ReadResult : Type :=
| read_error
| read_empty
| read_page (requestedPage : Z) (pageCount : nat) (pageData : Page).

Inductive UpdateResult : Type :=
| update_blocked
| update_error
| update_done (content : jsstring) (fileExists dry_run : bool).

Inductive WriteResult : Type :=
| write_blocked
| write_error
| write_done (finalContent : jsstring).

Section Server.

(** The file system and the calls the handlers make on it; [None] is a
    call that throws. *)
Context {FS Json : Type}.
Variable readFile : jsstring → FS → ReadOutcome.
Variable stat : jsstring → FS → option (nat * Z).
Variable writeFile : jsstring → jsstring → FS → option FS.
Variable appendFile : jsstring → jsstring → FS → option FS.
Variable access : jsstring → FS → bool.
Variable mkdir : jsstring → FS → option FS.
Variable dirname : jsstring → jsstring.
Variable JSON_stringify : Json → bool → jsstring.

(** The regular expressions of the platform: whether [new RegExp(source,
    flags)] is accepted, [regex.test(content)], and
    [content.replace(regex, replacement)]; and [content.replace(text,
    replacement)] for a string [text]. *)
Variable regexp_valid : jsstring → bool.
Variable regexp_test : jsstring → jsstring → jsstring → bool.
Variable regexp_replace : jsstring → jsstring → jsstring → jsstring → jsstring.
Variable string_replace : jsstring → jsstring → jsstring → jsstring.

(** The first phase, one operation; [None] when it throws. *)
Definition apply_text_op (u : Update) (content : jsstring)
    : option jsstring :=
  match type u with
  | Replace =>
      match old_string u with
      | None | Some [] => None
      | Some old =>
          if global u then
            if case_sensitive u
            then Some (join_with (new_string u) (split_on old content))
            else Some (regexp_replace (escape_regexp old) [103; 105] content
                         (new_string u))
          else if case_sensitive u then
            if includes content old
            then Some (string_replace content old (new_string u))
            else Some content
          else
            if regexp_test (escape_regexp old) [105] content
            then Some (regexp_replace (escape_regexp old) [105] content
                         (new_string u))
            else Some content
      end
  | Regex =>
      match pattern u with
      | None | Some [] => None
      | Some source =>
          let regexFlags := if global u then [103; 109] else [109] in
          if regexp_valid source then
            if regexp_test source regexFlags content
            then Some (regexp_replace source regexFlags content (new_string u))
            else Some content
          else None
      end
  | Append => Some (op_append content (new_string u))
  | Prepend => Some (op_prepend content (new_string u))
  | _ => Some content
  end.

Definition apply_text_ops (ops : list Update) (content : jsstring)
    : option jsstring :=
  foldl (λ acc u, c ← acc; apply_text_op u c) (Some content) ops.

(** Both phases: the text operations in the order given, then the line
    operations from the highest line number down. *)
Definition apply_updates (updates : list Update) (content : jsstring)
    : option jsstring :=
  let textOps := filter (λ u, is_text_op u = true) updates in
  let lineOps := filter (λ u, is_line_op u = true) updates in
  content ← apply_text_ops textOps content;
  apply_line_ops (sort_desc lineOps) content.

Record Server : Type := mkServer {
  files : FS;
  tracker : Tracker;
}.

(** The handler of [read_file], for a page number that is an integer;
    [MAX_TOKENS_PER_PAGE] is 10000. *)
Definition read_file (now : Z) (file_path : jsstring) (page : Z)
    (sv : Server) : ReadResult * Server :=
  match readFile file_path (files sv) with
  | read_ok content =>
      match stat file_path (files sv) with
      | None => (read_error, sv)
      | Some _ =>
          let sv' := mkServer (files sv) (markAsRead now file_path content) in
          let pages := paginateByTokens content 10000 in
          if (length pages =? 0)%nat then (read_empty, sv')
          else
            let requestedPage :=
              Z.max 1 (Z.min page (Z.of_nat (length pages))) in
            match pages !! Z.to_nat (requestedPage - 1) with
            | Some pageData =>
                (read_page requestedPage (length pages) pageData, sv')
            | None => (read_error, sv')
            end
      end
  | _ => (read_error, sv)
  end.

(** [`${file_path}.bak`] *)
Definition bak (file_path : jsstring) : jsstring :=
  file_path ++ [46; 98; 97; 107].

(** The handler of [update_file] *)
Definition update_file (now : Z) (file_path : jsstring)
    (updates : list Update) (create_backup dry_run : bool) (sv : Server)
    : UpdateResult * Server :=
  if negb (isLastReadFile file_path (tracker sv)) then (update_blocked, sv)
  else
    match readFile file_path (files sv) with
    | read_failed => (update_error, sv)
    | outcome =>
        let '(content, fileExists) :=
          match outcome with
          | read_ok text => (text, true)
          | _ => ([], false)
          end in
        let originalContent := content in
        match apply_updates updates content with
        | None => (update_error, sv)
        | Some content =>
            if dry_run then (update_done content fileExists true, sv)
            else
              match (if create_backup && fileExists
                     then writeFile (bak file_path) originalContent (files sv)
                     else Some (files sv)) with
              | None => (update_error, sv)
              | Some fs1 =>
                  match writeFile file_path content fs1 with
                  | None => (update_error, mkServer fs1 (tracker sv))
                  | Some fs2 =>
                      (update_done content fileExists false,
                       mkServer fs2 (markAsRead now file_path content))
                  end
              end
        end
    end.

(** The handler of [write_file] *)
Definition write_file (file_path : jsstring) (content : WriteContent Json)
    (create_dirs append format_json : bool) (sv : Server)
    : WriteResult * Server :=
  let fileExists := access file_path (files sv) in
  if fileExists then (write_blocked, sv)
  else
    match (if create_dirs then mkdir (dirname file_path) (files sv)
           else Some (files sv)) with
    | None => (write_error, sv)
    | Some fs1 =>
        let finalContent :=
          match content with
          | content_text text => text
          | content_json value => JSON_stringify value format_json
          end in
        match (if append then appendFile file_path finalContent fs1
               else writeFile file_path finalContent fs1) with
        | None => (write_error, mkServer fs1 (tracker sv))
        | Some fs2 => (write_done finalContent, mkServer fs2 (tracker sv))
        end
    end.

End Server.

(** A file system that keeps the text of each file under its path, where
    every write succeeds; directories are not kept. *)
Definition map_readFile (path : jsstring) (fs : gmap jsstring jsstring)
    : ReadOutcome :=
  match fs !! path with
  | Some text => read_ok text
  | None => read_ENOENT
  end.

Definition map_writeFile (path text : jsstring) (fs : gmap jsstring jsstring)
    : option (gmap jsstring jsstring) :=
  Some (<[path := text]> fs).

End McpTools.

(* ===================================================================== *)
(** * The chat settings endpoint of [api/chat/[id]/settings/route.ts] *)
(* ===================================================================== *)

Module ChatSettingsRoute.
Import ProviderConfig.

(** The eight settings that are kept as text; [None] is [null]. *)
Record TextSettings (A : Type) : Type := mkTextSettings {
  systemInstruction : A;
  temperature : A;
  maxTokens : A;
  topP : A;
  topK : A;
  presencePenalty : A;
  frequencyPenalty : A;
  seed : A;
}.
Arguments mkTextSettings {A}.
Arguments systemInstruction {A}.
Arguments temperature {A}.
Arguments maxTokens {A}.
Arguments topP {A}.
Arguments topK {A}.
Arguments presencePenalty {A}.
Arguments frequencyPenalty {A}.
Arguments seed {A}.

(** A row of the [chat] table, with the columns the route uses. *)
Record ChatRow : Type := mkChatRow {
  userId : string;
  model : Json;
  settings : TextSettings (option string);
}.

(** The table, by the primary key [chat.id]. *)
Abbreviation ChatTable := (gmap string ChatRow).

(** [const { model, systemInstruction, ... } = body]: a [TypeError] on
    [null]. *)
Definition destructure_settings (body : Json)
    : option (Value * TextSettings Value) :=
  match body with
  | JNull => None
  | _ =>
      Some (property "model" body,
            mkTextSettings
              (property "systemInstruction" body)
              (property "temperature" body)
              (property "maxTokens" body)
              (property "topP" body)
              (property "topK" body)
              (property "presencePenalty" body)
              (property "frequencyPenalty" body)
              (property "seed" body))
  end.

Section Route.

(** [String.prototype.trim], and the value of the [model] column after
    [.set({ model, ... })] for the [model] of the body, given or not, and
    the value the column had. *)
Variable trim : string → string.
Variable set_model : Value → Json → Json.

(** [value?.trim() || null]; [None] when the call throws, which it does
    for a value that is neither a string nor [null] nor [undefined]. *)
Definition trim_or_null (value : Value) : option (option string) :=
  match value with
  | None | Some JNull => Some None
  | Some (JString text) =>
      let trimmed := trim text in
      Some (if String.eqb trimmed "" then None else Some trimmed)
  | Some _ => None
  end.

(** The argument of [.set(...)], field by field in the order written. *)
Definition set_values (fields : TextSettings Value)
    : option (TextSettings (option string)) :=
  a ← trim_or_null (systemInstruction fields);
  b ← trim_or_null (temperature fields);
  c ← trim_or_null (maxTokens fields);
  d ← trim_or_null (topP fields);
  e ← trim_or_null (topK fields);
  f ← trim_or_null (presencePenalty fields);
  g ← trim_or_null (frequencyPenalty fields);
  h ← trim_or_null (seed fields);
  Some (mkTextSettings a b c d e f g h).

(** [.where(and(eq(chat.id, id), eq(chat.userId, userId))).limit(1)] *)
Definition select_own (id userId' : string) (db : ChatTable)
    : option ChatRow :=
  row ← db !! id;
  if String.eqb (userId row) userId' then Some row else None.

(** [db.update(chat).set({ model, ... }).where(eq(chat.id, id))] *)
Definition update_settings (id : string) (model' : Value)
    (values : TextSettings (option string)) (db : ChatTable) : ChatTable :=
  match db !! id with
  | Some row =>
      <[id := mkChatRow (userId row) (set_model model' (model row)) values]>
        db
  | None => db
  end.

Definition settings_updated : Json :=
  JObject [("success", JBool true);
           ("message", JString "Chat settings updated successfully")].

(** The body of the [try] block of [POST]; [None] when an exception is
    raised. *)
Definition POST_try (session : option AuthSession) (id : string)
    (request : NextRequest) (db : ChatTable)
    : option (NextResponse * ChatTable) :=
  match user_id session with
  | None => Some (respond_error "Unauthorized" 401, db)
  | Some uid =>
      body ← json request;
      '(model', fields) ← destructure_settings body;
      match select_own id uid db with
      | None => Some (respond_error "Chat not found" 404, db)
      | Some _ =>
          values ← set_values fields;
          Some (respond settings_updated,
                update_settings id model' values db)
      end
  end.

(** [export async function POST(request, { params })] *)
Definition POST (session : option AuthSession) (id : string)
    (request : NextRequest) (db : ChatTable) : NextResponse * ChatTable :=
  match POST_try session id request db with
  | Some result => result
  | None => (respond_error "Failed to update chat settings" 500, db)
  end.

End Route.

Definition nullable (value : option string) : Json :=
  match value with
  | Some text => JString text
  | None => JNull
  end.

(** The row [GET] answers with. *)
Definition settings_json (row : ChatRow) : Json :=
  JObject [("model", model row);
           ("systemInstruction", nullable (systemInstruction (settings row)));
           ("temperature", nullable (temperature (settings row)));
           ("maxTokens", nullable (maxTokens (settings row)));
           ("topP", nullable (topP (settings row)));
           ("topK", nullable (topK (settings row)));
           ("presencePenalty", nullable (presencePenalty (settings row)));
           ("frequencyPenalty", nullable (frequencyPenalty (settings row)));
           ("seed", nullable (seed (settings row)))].

(** [export async function GET(request, { params })] *)
Definition GET (session : option AuthSession) (id : string) (db : ChatTable)
    : NextResponse :=
  match user_id session with
  | None => respond_error "Unauthorized" 401
  | Some uid =>
      match select_own id uid db with
      | None => respond_error "Chat not found" 404
      | Some row => respond (settings_json row)
      end
  end.

(** The settings of a row, one after the other. *)
Definition settings_list {A : Type} (t : TextSettings A) : list A :=
  [systemInstruction t; temperature t; maxTokens t; topP t; topK t;
   presencePenalty t; frequencyPenalty t; seed t].

End ChatSettingsRoute.

(* ===================================================================== *)
(** * Reading the provider configurations back *)
(* ===================================================================== *)

Module ProviderConfigGet.
Import ProviderConfig.

(** What [GET] answers: an error response, or [NextResponse.json(configs)]
    with status 200. *)
Inductive GetResponse (Rows : Type) : Type :=
| get_error (response : NextResponse)
| get_configs (configs : Rows).
Arguments get_error {Rows} response.
Arguments get_configs {Rows} configs.

Section Handler.

(** The storage and [getAllProviderConfigs] of [lib/db/queries]; [None]
    when the call throws. *)
Context {Store Rows : Type}.
Variable getAll : string → Store → option Rows.

(** [export async function GET()] of the provider configuration route *)
Definition GET (session : option AuthSession) (db : Store)
    : GetResponse Rows :=
  match user_id session with
  | None => get_error (respond_error "Unauthorized" 401)
  | Some uid =>
      match getAll uid db with
      | Some configs => get_configs configs
      | None =>
          get_error
            (respond_error "Failed to fetch provider configurations" 500)
      end
  end.

End Handler.

End ProviderConfigGet.

(* ===================================================================== *)
(** * Facts about the pacing transform *)
(* ===================================================================== *)

Import Pacing.

(** ** Equations of the callbacks *)

Lemma exec_resume (chunk : TextStreamPart) (s : Session) :
  readable s = Readable → exec (resume chunk) s = forwarded chunk s.
Proof. intros Hr. cbn. rewrite Hr. reflexivity. Qed.

Lemma exec_resume_closed (chunk : TextStreamPart) (s : Session) :
  readable s = Closed → exec (resume chunk) s = refuse chunk s.
Proof. intros Hr. cbn. rewrite Hr. reflexivity. Qed.

Lemma exec_transform (chunk : TextStreamPart) (s : Session) :
  readable s = Readable →
  exec (transform chunk) s =
    if is_text chunk && (clock s - lastChunkTime s <? MIN_DELAY_MS)
    then with_pending
           (Some (clock s + (MIN_DELAY_MS - (clock s - lastChunkTime s)),
                  resume chunk)) s
    else forwarded chunk s.
Proof.
  intros Hr. unfold transform. cbn.
  destruct (is_text chunk && (clock s - lastChunkTime s <? MIN_DELAY_MS));
    cbn; [reflexivity | rewrite Hr; reflexivity].
Qed.

#[local] Arguments transform : simpl never.

Lemma idle_inv (s : Session) :
  idle s = true ↔
  pending s = None ∧ readable s = Readable ∧ rejected s = false.
Proof.
  unfold idle. rewrite !andb_true_iff, !bool_decide_eq_true, negb_true_iff.
  tauto.
Qed.

(** ** One arrival of an undisturbed session *)

Lemma run_arrival (a : Arrival) (s : Session) :
  idle s = true →
  ∃ s', run (paced [a]) s = Some s' ∧ idle s' = true ∧
        emitted s' = emitted s ++ [(chunk_of a, emit_time a s)] ∧
        lastChunkTime s' = emit_time a s ∧
        clock s' = emit_time a s ∧
        terminations s' = terminations s.
Proof.
  intros Hi. pose proof Hi as (Hp & Hr & Hj)%idle_inv.
  destruct a as [g c l]. unfold paced, emit_time. cbn.
  rewrite Hp. cbn.
  assert (Hi' : idle (with_clock (clock s + g) s) = true)
    by (apply idle_inv; cbn; auto).
  rewrite Hi'. cbn. rewrite exec_transform by exact Hr. cbn.
  destruct (is_text c && (clock s + g - lastChunkTime s <? MIN_DELAY_MS)); cbn.
  - rewrite Hr. cbn. eexists. split; [reflexivity|]. cbn.
    split; [apply idle_inv; cbn; auto|].
    replace (clock s + g + (MIN_DELAY_MS - (clock s + g - lastChunkTime s)) + l)
      with (lastChunkTime s + MIN_DELAY_MS + l) by lia.
    repeat split.
  - eexists. split; [reflexivity|]. cbn.
    repeat split. apply idle_inv. cbn. auto.
Qed.

Lemma paced_cons (a : Arrival) (sched : list Arrival) :
  paced (a :: sched) = paced [a] ++ paced sched.
Proof. reflexivity. Qed.

Lemma run_app (evs1 evs2 : list Event) (s : Session) :
  run (evs1 ++ evs2) s = s' ← run evs1 s; run evs2 s'.
Proof.
  revert s. induction evs1 as [|e evs1 IH]; intros s; cbn; [reflexivity|].
  destruct (step e s) as [s1|]; cbn; [apply IH | reflexivity].
Qed.

(** ** Invariant of undisturbed sessions *)

Lemma is_text_true (chunk : TextStreamPart) :
  is_text chunk = true ↔ type chunk = "text".
Proof. unfold is_text. apply String.eqb_eq. Qed.

Lemma spaced_snoc (out : list (TextStreamPart * Z)) c t :
  spaced out →
  (∀ c1 t1, last out = Some (c1, t1) → type c = "text" →
            t1 + MIN_DELAY_MS ≤ t) →
  spaced (out ++ [(c, t)]).
Proof.
  intros Hs Hl i c1 t1 c2 t2 H1 H2 Ht.
  destruct (decide (S i < length out)%nat) as [Hlt|Hge].
  - rewrite lookup_app_l in H1 by lia. rewrite lookup_app_l in H2 by lia.
    eapply Hs; eauto.
  - assert (S i = length out) as Hi.
    { apply lookup_lt_Some in H2. rewrite length_app in H2. cbn in H2. lia. }
    rewrite lookup_app_l in H1 by lia.
    rewrite Hi, lookup_app_r, Nat.sub_diag in H2 by lia.
    cbn in H2. simplify_eq. apply (Hl c1 t1); [|done].
    rewrite last_lookup. rewrite <- Hi. cbn. done.
Qed.

Lemma emit_time_spacing (a : Arrival) (s : Session) :
  0 ≤ late_by a → type (chunk_of a) = "text" →
  lastChunkTime s + MIN_DELAY_MS ≤ emit_time a s.
Proof.
  intros Hl Ht%is_text_true. unfold emit_time. rewrite Ht. cbn.
  destruct (Z.ltb_spec (clock s + gap a - lastChunkTime s) MIN_DELAY_MS); lia.
Qed.

Lemma run_paced (sched : list Arrival) (s : Session) :
  idle s = true →
  ∃ s', run (paced sched) s = Some s' ∧ idle s' = true ∧
        (emitted s').*1 = (emitted s).*1 ++ chunks sched ∧
        terminations s' = terminations s ∧
        (Forall (λ a, 0 ≤ late_by a) sched →
         spaced (emitted s) → stamped s →
         spaced (emitted s') ∧ stamped s').
Proof.
  revert s. induction sched as [|a sched IH]; intros s Hi.
  - exists s. cbn. rewrite app_nil_r. repeat split; auto.
  - destruct (run_arrival a s Hi) as (s1 & Hrun1 & Hi1 & Hem & Hts & _ & Hte).
    destruct (IH s1 Hi1) as (s2 & Hrun2 & Hi2 & Hch & Hte2 & Hinv).
    exists s2. rewrite paced_cons, run_app, Hrun1. cbn.
    split; [exact Hrun2|]. split; [exact Hi2|]. split; [|split].
    + rewrite Hch, Hem, fmap_app, <- app_assoc. reflexivity.
    + congruence.
    + intros Hl Hs Hst. apply Forall_cons in Hl as [Hla Hl].
      apply Hinv; [exact Hl| |].
      * rewrite Hem. apply spaced_snoc; [exact Hs|].
        intros c1 t1 Hlast Ht. rewrite <- (Hst c1 t1 Hlast).
        apply emit_time_spacing; assumption.
      * intros c t. rewrite Hem, last_snoc. intros [= _ <-]. exact Hts.
Qed.

Lemma idle_init (t0 : Z) : idle (init t0) = true.
Proof. reflexivity. Qed.

Lemma step_transform_idle (chunk : TextStreamPart) (s : Session) :
  idle s = true →
  step (Call_transform chunk) s = Some (exec (transform chunk) s).
Proof. intros Hi. cbn. rewrite Hi. reflexivity. Qed.

Lemma transform_waits (s : Session) (chunk : TextStreamPart) :
  idle s = true → type chunk = "text" →
  clock s - lastChunkTime s < MIN_DELAY_MS →
  step (Call_transform chunk) s =
    Some (with_pending
            (Some (clock s + (MIN_DELAY_MS - (clock s - lastChunkTime s)),
                   resume chunk)) s).
Proof.
  intros Hi Ht%is_text_true Hlt. pose proof Hi as (_ & Hr & _)%idle_inv.
  rewrite step_transform_idle, exec_transform by assumption.
  rewrite Ht. apply Z.ltb_lt in Hlt. rewrite Hlt. reflexivity.
Qed.

(** ** The claims on the pacing transform *)

(** C1.  In a session whose timers never fire early, every text chunk that
    follows another chunk is enqueued at least [MIN_DELAY_MS] after it,
    whatever the gap between their arrivals; the chunks are enqueued in
    the order of arrival; the stored timestamp is the time of the last
    enqueue; and a text chunk that comes less than [MIN_DELAY_MS] after
    the stored timestamp waits on a timer of [MIN_DELAY_MS] minus the time
    elapsed since then before it is enqueued. *)
Theorem C1_text_chunks_spaced (sched : list Arrival) (t0 : Z) :
  Forall (λ a, 0 ≤ late_by a) sched →
  ∃ s, run (paced sched) (init t0) = Some s ∧
       (emitted s).*1 = chunks sched ∧
       (∀ (i : nat) c1 t1 c2 t2,
          emitted s !! i = Some (c1, t1) →
          emitted s !! S i = Some (c2, t2) →
          type c2 = "text" → t1 + MIN_DELAY_MS ≤ t2) ∧
       (∀ c t, last (emitted s) = Some (c, t) → lastChunkTime s = t) ∧
       (∀ s0 chunk,
          idle s0 = true → type chunk = "text" →
          clock s0 - lastChunkTime s0 < MIN_DELAY_MS →
          step (Call_transform chunk) s0 =
            Some (with_pending
                    (Some (clock s0 +
                             (MIN_DELAY_MS - (clock s0 - lastChunkTime s0)),
                           resume chunk)) s0)).
Proof.
  intros Hl.
  destruct (run_paced sched (init t0) (idle_init t0))
    as (s & Hrun & _ & Hch & _ & Hinv).
  destruct Hinv as [Hsp Hst]; [exact Hl | | |].
  - intros i c1 t1 c2 t2 H1. cbn in H1. rewrite lookup_nil in H1. done.
  - intros c t H. cbn in H. done.
  - exists s.
    split; [exact Hrun|]. split; [exact Hch|]. split; [exact Hsp|].
    split; [exact Hst|]. apply transform_waits.
Qed.

(** Two text chunks that arrive 5 ms apart, with a punctual timer. *)
Lemma C1_text_chunks_spaced_witness :
  let sched := [mkArrival 0 (mkPart "text" "Hello") 0;
                mkArrival 5 (mkPart "text" " world") 0] in
  Forall (λ a, 0 ≤ late_by a) sched ∧
  ∃ s, run (paced sched) (init 1000) = Some s ∧
       (emitted s).*1 = chunks sched ∧
       (∀ (i : nat) c1 t1 c2 t2,
          emitted s !! i = Some (c1, t1) →
          emitted s !! S i = Some (c2, t2) →
          type c2 = "text" → t1 + MIN_DELAY_MS ≤ t2) ∧
       (∀ c t, last (emitted s) = Some (c, t) → lastChunkTime s = t) ∧
       (∀ s0 chunk,
          idle s0 = true → type chunk = "text" →
          clock s0 - lastChunkTime s0 < MIN_DELAY_MS →
          step (Call_transform chunk) s0 =
            Some (with_pending
                    (Some (clock s0 +
                             (MIN_DELAY_MS - (clock s0 - lastChunkTime s0)),
                           resume chunk)) s0)).
Proof.
  intros sched.
  assert (Hl : Forall (λ a, 0 ≤ late_by a) sched)
    by (repeat constructor; cbn; lia).
  split; [exact Hl | exact (C1_text_chunks_spaced sched 1000 Hl)].
Defined.

(** C2.  Whatever the chunks and whatever the timing, an undisturbed
    session comes to rest with exactly the chunks it was given on the
    readable side, in the order given: none dropped, merged, duplicated or
    altered; no callback is left suspended and none has thrown. *)
Theorem C2_output_is_input (sched : list Arrival) (t0 : Z) :
  ∃ s, run (paced sched) (init t0) = Some s ∧
       (emitted s).*1 = chunks sched ∧
       length (emitted s) = length sched ∧
       pending s = None ∧ rejected s = false.
Proof.
  destruct (run_paced sched (init t0) (idle_init t0))
    as (s & Hrun & (Hp & _ & Hj)%idle_inv & Hch & _).
  exists s. cbn in Hch. repeat split; try done.
  rewrite <- (length_fmap fst), Hch. unfold chunks. apply length_fmap.
Qed.

(** C5.  A chunk whose type is not ["text"] is enqueued by the very call
    that receives it, at the clock reading of that call and as it came,
    whatever the stored timestamp is: no timer is set. *)
Theorem C5_non_text_immediate (chunk : TextStreamPart) (s : Session) :
  idle s = true → type chunk ≠ "text" →
  ∃ s', step (Call_transform chunk) s = Some s' ∧
        emitted s' = emitted s ++ [(chunk, clock s)] ∧
        pending s' = None ∧ clock s' = clock s.
Proof.
  intros Hi Ht. pose proof Hi as (_ & Hr & _)%idle_inv.
  rewrite step_transform_idle, exec_transform by assumption.
  destruct (is_text chunk) eqn:E; [apply is_text_true in E; done|].
  cbn. eexists. split; [reflexivity|]. cbn. done.
Qed.

(** A finish part handed over 3 ms after a text part. *)
Lemma C5_non_text_immediate_witness :
  let s := with_lastChunkTime 997 (init 1000) in
  let chunk := mkPart "finish" "stop" in
  idle s = true ∧ type chunk ≠ "text" ∧
  ∃ s', step (Call_transform chunk) s = Some s' ∧
        emitted s' = emitted s ++ [(chunk, clock s)] ∧
        pending s' = None ∧ clock s' = clock s.
Proof.
  intros s chunk.
  assert (Hi : idle s = true) by reflexivity.
  assert (Ht : type chunk ≠ "text") by (cbn; discriminate).
  split; [exact Hi|]. split; [exact Ht|].
  exact (C5_non_text_immediate chunk s Hi Ht).
Defined.

(** A clock that is set back between two text chunks: the first is
    enqueued at 1000, the wall clock that [Date.now()] reads is then set
    back by 10 ms, and the call of [transform] for the second, at 990,
    sets a timer of [20 - (990 - 1000) = 30] ms.  The claim that the wait
    is at most [MIN_DELAY_MS] fails there. *)
Lemma C6_clock_set_back_counterexample :
  ¬ delay_bounded [Call_transform (mkPart "text" "a"); Elapse (-10)] 1000
      (mkPart "text" "b").
Proof.
  intros H. specialize (H _ _ eq_refl eq_refl). vm_compute in H.
  destruct H as [_ H]. apply H. reflexivity.
Qed.

(** C6, as the code has it.  [MIN_DELAY_MS] is 20.  A call of [transform]
    either sets no timer and enqueues its chunk at once, or, for a text
    chunk only, sets a timer whose delay is
    [MIN_DELAY_MS - (now - lastChunkTime)] and enqueues nothing before it
    fires.  That delay is above 0; it is at most [MIN_DELAY_MS] exactly
    when the clock reading is not below the stored timestamp, and exceeds
    [MIN_DELAY_MS] by as much as the clock has gone back otherwise. *)
Theorem C6_delay_bounded (chunk : TextStreamPart) (s : Session) :
  idle s = true →
  MIN_DELAY_MS = 20 ∧
  ∃ s', step (Call_transform chunk) s = Some s' ∧
        match pending s' with
        | Some (deadline, _) =>
            type chunk = "text" ∧
            deadline - clock s = MIN_DELAY_MS - (clock s - lastChunkTime s) ∧
            0 < deadline - clock s ∧
            (deadline - clock s ≤ MIN_DELAY_MS ↔ lastChunkTime s ≤ clock s) ∧
            emitted s' = emitted s
        | None => emitted s' = emitted s ++ [(chunk, clock s)]
        end.
Proof.
  intros Hi. pose proof Hi as (_ & Hr & _)%idle_inv.
  split; [reflexivity|].
  rewrite step_transform_idle, exec_transform by assumption.
  destruct (is_text chunk) eqn:E; cbn;
    [destruct (Z.ltb_spec (clock s - lastChunkTime s) MIN_DELAY_MS)|];
    eexists; (split; [reflexivity|]); cbn; try done.
  apply is_text_true in E. repeat split; try done; lia.
Qed.

(** A text chunk handed over 5 ms after the last enqueue. *)
Lemma C6_delay_bounded_witness :
  let s := with_lastChunkTime 1000 (init 1005) in
  let chunk := mkPart "text" " world" in
  idle s = true ∧
  MIN_DELAY_MS = 20 ∧
  ∃ s', step (Call_transform chunk) s = Some s' ∧
        match pending s' with
        | Some (deadline, _) =>
            type chunk = "text" ∧
            deadline - clock s = MIN_DELAY_MS - (clock s - lastChunkTime s) ∧
            0 < deadline - clock s ∧
            (deadline - clock s ≤ MIN_DELAY_MS ↔ lastChunkTime s ≤ clock s) ∧
            emitted s' = emitted s
        | None => emitted s' = emitted s ++ [(chunk, clock s)]
        end.
Proof.
  intros s chunk.
  assert (Hi : idle s = true) by reflexivity.
  split; [exact Hi|].
  exact (C6_delay_bounded chunk s Hi).
Defined.

(** C8.  When upstream ends after an undisturbed session, [flush] enqueues
    nothing and calls [controller.terminate] once: before it the count of
    terminations is 0, after it the count is 1 and the readable side is
    closed. *)
Theorem C8_flush_terminates_once (sched : list Arrival) (t0 : Z) :
  ∃ s s', run (paced sched) (init t0) = Some s ∧
          run (paced sched ++ [Call_flush]) (init t0) = Some s' ∧
          terminations s = 0%nat ∧ terminations s' = 1%nat ∧
          emitted s' = emitted s ∧ readable s' = Closed ∧
          step Call_flush s' = None.
Proof.
  destruct (run_paced sched (init t0) (idle_init t0))
    as (s & Hrun & Hi & _ & Hte & _).
  exists s, (with_pending None (close_readable s)).
  rewrite run_app, Hrun. cbn. rewrite Hi. cbn.
  rewrite Hte. cbn. done.
Qed.

(** C9.  [lastChunkTime] starts at 0, so when the first call of
    [transform] reads a clock of at least [MIN_DELAY_MS] (the clock counts
    milliseconds since 1970) the first chunk, text or not, is enqueued by
    that call at that reading and no timer is set. *)
Theorem C9_first_chunk_immediate
    (chunk : TextStreamPart) (t0 wait : Z) :
  MIN_DELAY_MS ≤ t0 + wait →
  lastChunkTime (init t0) = 0 ∧
  ∃ s, run [Elapse wait; Call_transform chunk] (init t0) = Some s ∧
       emitted s = [(chunk, t0 + wait)] ∧ pending s = None.
Proof.
  intros Hnow. split; [reflexivity|]. cbn -[exec transform].
  rewrite exec_transform by reflexivity. cbn.
  replace (t0 + wait - 0 <? MIN_DELAY_MS) with false
    by (symmetry; apply Z.ltb_ge; lia).
  rewrite andb_false_r. eexists. split; [reflexivity|]. cbn. done.
Qed.

(** A text chunk as the first chunk of a stream. *)
Lemma C9_first_chunk_immediate_witness :
  let chunk := mkPart "text" "Hello" in
  MIN_DELAY_MS ≤ 1700000000000 + 3 ∧
  lastChunkTime (init 1700000000000) = 0 ∧
  ∃ s, run [Elapse 3; Call_transform chunk] (init 1700000000000) = Some s ∧
       emitted s = [(chunk, 1700000000000 + 3)] ∧ pending s = None.
Proof.
  intros chunk.
  assert (H : MIN_DELAY_MS ≤ 1700000000000 + 3) by (unfold MIN_DELAY_MS; lia).
  split; [exact H | exact (C9_first_chunk_immediate chunk _ 3 H)].
Defined.

(** ** Cancellation while a delay is pending *)

(** A consumer that cancels 5 ms into the 15 ms delay of the second text
    chunk: the delay stays pending after the cancellation, and when the
    timer fires the callback calls [controller.enqueue] and ends by
    throwing.  The claim that the delay is abandoned fails there. *)
Lemma C4_cancel_counterexample :
  ¬ delay_abandoned_on_cancel
      [Call_transform (mkPart "text" "a"); Elapse 5;
       Call_transform (mkPart "text" "b"); Elapse 5]
      [TimerFires 0] 1000.
Proof.
  intros H.
  destruct (H _ _ eq_refl eq_refl) as (Hp & _). cbn in Hp. discriminate Hp.
Qed.

(** C4, as the code has it.  The transformer takes no notice of a
    cancellation: when the consumer cancels while [transform(chunk)] is
    suspended on its timer, the timer stays pending with its deadline and
    nothing is enqueued meanwhile; when the timer fires, [late] ms past
    the deadline, the callback calls [controller.enqueue(chunk)] all the
    same, the closed readable side refuses the chunk, so nothing reaches
    the consumer after the cancellation, and the callback ends by
    throwing without storing a timestamp. *)
Theorem C4_delay_survives_cancel
    (chunk : TextStreamPart) (s s1 : Session)
    (deadline late : Z) (k : Prog unit) :
  idle s = true →
  step (Call_transform chunk) s = Some s1 →
  pending s1 = Some (deadline, k) →
  ∃ s2 s3,
    step Cancel s1 = Some s2 ∧
    pending s2 = Some (deadline, k) ∧ emitted s2 = emitted s ∧
    step (TimerFires late) s2 = Some s3 ∧
    clock s3 = deadline + late ∧
    enqueue_calls s3 = enqueue_calls s ++ [(chunk, deadline + late)] ∧
    emitted s3 = emitted s ∧
    lastChunkTime s3 = lastChunkTime s ∧
    pending s3 = None ∧ rejected s3 = true.
Proof.
  intros Hi Hstep Hp. pose proof Hi as (_ & Hr & _)%idle_inv.
  rewrite step_transform_idle, exec_transform in Hstep by assumption.
  destruct (is_text chunk && (clock s - lastChunkTime s <? MIN_DELAY_MS));
    simplify_eq/=.
  eexists _, _. split; [reflexivity|]. cbn.
  repeat split.
Qed.

(** The second text chunk of a stream, 5 ms after the first. *)
Lemma C4_delay_survives_cancel_witness :
  let chunk := mkPart "text" "b" in
  let s := with_lastChunkTime 1000 (init 1005) in
  let k := resume chunk in
  let s1 := with_pending (Some (1020, k)) s in
  idle s = true ∧
  step (Call_transform chunk) s = Some s1 ∧
  pending s1 = Some (1020, k) ∧
  ∃ s2 s3,
    step Cancel s1 = Some s2 ∧
    pending s2 = Some (1020, k) ∧ emitted s2 = emitted s ∧
    step (TimerFires 2) s2 = Some s3 ∧
    clock s3 = 1020 + 2 ∧
    enqueue_calls s3 = enqueue_calls s ++ [(chunk, 1020 + 2)] ∧
    emitted s3 = emitted s ∧
    lastChunkTime s3 = lastChunkTime s ∧
    pending s3 = None ∧ rejected s3 = true.
Proof.
  intros chunk s k s1.
  assert (Hi : idle s = true) by reflexivity.
  assert (Hs : step (Call_transform chunk) s = Some s1) by reflexivity.
  assert (Hp : pending s1 = Some (1020, k)) by reflexivity.
  split; [exact Hi|]. split; [exact Hs|]. split; [exact Hp|].
  exact (C4_delay_survives_cancel chunk s s1 1020 2 k Hi Hs Hp).
Defined.

(* ===================================================================== *)
(** * Facts about the provider configuration endpoint *)
(* ===================================================================== *)

Import ProviderConfig.

Lemma complete_inv (body : Json) :
  complete body = true →
  truthy (property "provider" body) = true ∧
  truthy (property "apiKey" body) = true ∧
  is_Some (as_ProviderType (property "provider" body)) ∧
  negb (strict_eq (property "provider" body) "openrouter")
  && negb (strict_eq (property "provider" body) "deepinfra") = false.
Proof.
  unfold complete, as_ProviderType.
  destruct (truthy (property "provider" body)),
    (truthy (property "apiKey" body)),
    (strict_eq (property "provider" body) "openrouter"),
    (strict_eq (property "provider" body) "deepinfra"); cbn; try done;
    intros _; repeat split; eauto.
Qed.

Lemma destructure_not_null (body : Json) :
  body ≠ JNull →
  destructure body = Some (property "provider" body, property "apiKey" body).
Proof. destruct body; done. Qed.

Section HandlerFacts.

Context {Store : Type}.
Variable save : string → ProviderType → Value → Store → option Store.

Lemma POST_unauthenticated (session : option AuthSession)
    (request : NextRequest) (db : Store) :
  user_id session = None →
  POST save session request db = (respond_error "Unauthorized" 401, db).
Proof. intros H. unfold POST, POST_try. rewrite H. reflexivity. Qed.

Lemma POST_throws (session : option AuthSession) (request : NextRequest)
    (db : Store) (uid : string) :
  user_id session = Some uid →
  json request = None ∨ json request = Some JNull →
  POST save session request db =
    (respond_error "Failed to save provider configuration" 500, db).
Proof.
  intros H [Hj|Hj]; unfold POST, POST_try; rewrite H, Hj; reflexivity.
Qed.

Lemma POST_incomplete (session : option AuthSession)
    (request : NextRequest) (db : Store) (uid : string) (body : Json) :
  user_id session = Some uid → json request = Some body →
  body ≠ JNull → complete body = false →
  status (POST save session request db).1 = 400%nat ∧
  (POST save session request db).2 = db.
Proof.
  intros H Hj Hn Hc. unfold POST, POST_try. rewrite H, Hj. cbn.
  rewrite (destructure_not_null body Hn). cbn.
  unfold complete in Hc.
  destruct (truthy (property "provider" body)),
    (truthy (property "apiKey" body)); cbn in *; try done.
  destruct (strict_eq (property "provider" body) "openrouter"),
    (strict_eq (property "provider" body) "deepinfra"); cbn in *; done.
Qed.

Lemma POST_complete (session : option AuthSession)
    (request : NextRequest) (db : Store) (uid : string) (body : Json) :
  user_id session = Some uid → json request = Some body →
  complete body = true →
  ∃ p, as_ProviderType (property "provider" body) = Some p ∧
       POST save session request db =
         match save uid p (property "apiKey" body) db with
         | Some db' => (respond saved_successfully, db')
         | None =>
             (respond_error "Failed to save provider configuration" 500, db)
         end.
Proof.
  intros H Hj (Hp & Hk & [p Has] & Hne)%complete_inv.
  exists p. split; [exact Has|].
  assert (Hn : body ≠ JNull) by (intros ->; done).
  unfold POST, POST_try. rewrite H, Hj. cbn.
  rewrite (destructure_not_null body Hn). cbn.
  rewrite Hp, Hk, Hne, Has. cbn.
  destruct (save uid p (property "apiKey" body) db); reflexivity.
Qed.

End HandlerFacts.

(** ** The claim on the endpoint *)

(** An authenticated request whose body is the JSON value [null]: the
    destructuring throws, the [catch] answers 500, not 400. *)
Lemma C10_null_body_counterexample :
  ¬ other_body_gets_400 (saveProviderConfig 1700000000000 "row-1")
      (Some (mkAuthSession (Some (mkUser (Some "user-1")))))
      (mkRequest (Some JNull)) ∅.
Proof.
  intros H. destruct H as [H _].
  - eexists. reflexivity.
  - intros body [= <-]. reflexivity.
  - cbn in H. discriminate H.
Qed.

(** C10, as the code has it.  Without a user id the answer is 401 and the
    storage is left alone.  With one: a body that parses to a value other
    than [null] and lacks a truthy [provider], a truthy [apiKey] or one of
    the two provider names is answered with 400 and nothing is saved; a
    body that does not parse, or is [null], makes the handler throw and is
    answered with 500, nothing saved; a body with both fields and a valid
    provider reaches [saveProviderConfig], and the answer is the success
    message with the storage that call returns, or 500 with the storage as
    it was when that call throws.  The storage changes only in the last
    case. *)
Theorem C10_post_outcomes {Store : Type}
    (save : string → ProviderType → Value → Store → option Store)
    (session : option AuthSession) (request : NextRequest) (db : Store) :
  (user_id session = None →
   POST save session request db = (respond_error "Unauthorized" 401, db)) ∧
  (∀ uid, user_id session = Some uid →
     (∀ body, json request = Some body → body ≠ JNull →
        complete body = false →
        status (POST save session request db).1 = 400%nat ∧
        (POST save session request db).2 = db) ∧
     (json request = None ∨ json request = Some JNull →
        status (POST save session request db).1 = 500%nat ∧
        (POST save session request db).2 = db) ∧
     (∀ body, json request = Some body → complete body = true →
        ∃ p, as_ProviderType (property "provider" body) = Some p ∧
             POST save session request db =
               match save uid p (property "apiKey" body) db with
               | Some db' => (respond saved_successfully, db')
               | None =>
                   (respond_error "Failed to save provider configuration" 500,
                    db)
               end)) ∧
  ((POST save session request db).2 ≠ db →
   ∃ uid body p,
     user_id session = Some uid ∧ json request = Some body ∧
     complete body = true ∧
     as_ProviderType (property "provider" body) = Some p ∧
     save uid p (property "apiKey" body) db =
       Some (POST save session request db).2).
Proof.
  split; [apply POST_unauthenticated|]. split.
  - intros uid Hu. split; [|split].
    + intros body Hj Hn Hc. eapply POST_incomplete; eauto.
    + intros Hj. rewrite (POST_throws save _ _ _ uid Hu Hj). done.
    + intros body Hj Hc. eapply POST_complete; eauto.
  - intros Hne. destruct (user_id session) as [uid|] eqn:Hu.
    2: { rewrite POST_unauthenticated in Hne by exact Hu. done. }
    destruct (json request) as [body|] eqn:Hj.
    2: { rewrite (POST_throws save _ _ _ uid) in Hne by auto. done. }
    assert (body = JNull ∨ body ≠ JNull) as [->|Hn]
      by (destruct body; auto).
    { rewrite (POST_throws save _ _ _ uid) in Hne by auto. done. }
    destruct (complete body) eqn:Hc.
    2: { destruct (POST_incomplete save _ _ db uid body Hu Hj Hn Hc).
         done. }
    destruct (POST_complete save _ _ db uid body Hu Hj Hc) as (p & Hp & HP).
    exists uid, body, p. repeat split; try done.
    rewrite HP in Hne |- *.
    destruct (save uid p (property "apiKey" body) db); cbn in *; done.
Qed.

(** A first save for a user, and a body without a key. *)
Lemma C10_post_outcomes_witness :
  let save := saveProviderConfig 1700000000000 "row-1" in
  let session := Some (mkAuthSession (Some (mkUser (Some "user-1")))) in
  let body :=
    JObject [("provider", JString "deepinfra"); ("apiKey", JString "k")] in
  let row := mkRow "row-1" 1700000000000 1700000000000 (Some (JString "k")) in
  let body' := JObject [("provider", JString "deepinfra")] in
  POST save session (mkRequest (Some body)) ∅ =
    (respond saved_successfully, {[ ("user-1", deepinfra) := row ]}) ∧
  status (POST save session (mkRequest (Some body')) ∅).1 = 400%nat ∧
  POST save None (mkRequest (Some body)) ∅ =
    (respond_error "Unauthorized" 401, ∅).
Proof.
  intros save session body row body'.
  destruct (C10_post_outcomes save session (mkRequest (Some body)) ∅)
    as (_ & Hin & _).
  destruct (Hin "user-1" eq_refl) as (_ & _ & Hok).
  destruct (Hok body eq_refl eq_refl) as (p & Hp & HP).
  injection Hp as <-.
  destruct (C10_post_outcomes save session (mkRequest (Some body')) ∅)
    as (_ & Hin' & _).
  destruct (Hin' "user-1" eq_refl) as (Hbad & _ & _).
  destruct (Hbad body' eq_refl ltac:(discriminate) eq_refl) as (H400 & _).
  destruct (C10_post_outcomes save None (mkRequest (Some body)) ∅)
    as (H401 & _).
  split; [exact HP|]. split; [exact H400 | exact (H401 eq_refl)].
Defined.

(* ===================================================================== *)
(** * Facts about the stream relay *)
(* ===================================================================== *)

Import Relay.

Lemma relay_terminal (m : Meta) (ups : list Upstream) (c : Connection) :
  relay_state c = ENDED ∨ relay_state c = ERRORED →
  relay m ups c = Some c.
Proof.
  intros Ht. induction ups as [|u ups IH]; [reflexivity|].
  cbn. unfold relay_step. destruct Ht as [-> | ->]; cbn; exact IH.
Qed.

Lemma relay_app (m : Meta) (ups1 ups2 : list Upstream) (c : Connection) :
  relay m (ups1 ++ ups2) c = c' ← relay m ups1 c; relay m ups2 c'.
Proof.
  revert c. induction ups1 as [|u ups1 IH]; intros c; cbn; [reflexivity|].
  destruct (relay_step m u c) as [c1|]; cbn; [apply IH | reflexivity].
Qed.

Lemma relay_chunks_streaming (m : Meta) (contents : list string)
    (c : Connection) :
  relay_state c = STREAMING →
  ∃ c', relay m (UpChunk <$> contents) c = Some c' ∧
        relay_state c' = STREAMING ∧
        http_status c' = http_status c ∧ error_body c' = error_body c ∧
        sse_events c' = sse_events c ++ (chunk_event m <$> contents).
Proof.
  revert c. induction contents as [|x contents IH]; intros c Hs.
  - exists c. cbn. rewrite app_nil_r. done.
  - cbn. unfold relay_step. rewrite Hs. cbn.
    edestruct IH as (c' & Hrun & Hs' & Hst & Hb & Hev); [|rewrite Hrun].
    + reflexivity.
    + exists c'. cbn in *. rewrite <- app_assoc in Hev. done.
Qed.

Lemma relay_chunks_first (m : Meta) (x : string) (contents : list string) :
  ∃ c, relay m (UpChunk <$> (x :: contents)) connect = Some c ∧
       relay_state c = STREAMING ∧
       http_status c = Some 200%nat ∧ error_body c = None ∧
       sse_events c = chunk_event m <$> (x :: contents).
Proof.
  cbn.
  edestruct (relay_chunks_streaming m contents) as (c & Hrun & Hs & Hst & Hb & Hev);
    [|rewrite Hrun]; [reflexivity|].
  exists c. cbn in *. done.
Qed.

(** ** The claims on the relay *)

(** C3.  After one chunk or more was forwarded, an upstream failure adds
    exactly one event to those already sent: it has [finish_reason]
    ["error"], empty content and the failure's code and message as
    top-level [error], beside the id, object, created, model and provider
    of the response.  The connection is then closed and takes nothing
    more from upstream; the status stays the committed 200 and no error
    body is produced. *)
Theorem C3_mid_stream_error (m : Meta) (contents : list string)
    (f : Failure) (rest : list Upstream) :
  contents ≠ [] →
  ∃ c, relay m ((UpChunk <$> contents) ++ UpFailure f :: rest) connect
         = Some c ∧
       sse_events c = (chunk_event m <$> contents) ++ [error_event m f] ∧
       Forall (λ e, ev_finish_reason e = None) (chunk_event m <$> contents) ∧
       error_event m f =
         mkEvent (meta_id m) "chat.completion.chunk" (meta_created m)
           (meta_model m) (meta_provider m) "" (Some "error") None
           (Some (code f, message f)) ∧
       http_status c = Some 200%nat ∧ error_body c = None ∧
       closed c = true ∧ relay_state c = ERRORED.
Proof.
  intros Hne. destruct contents as [|x contents]; [done|].
  destruct (relay_chunks_first m x contents)
    as (c & Hrun & Hs & Hst & Hb & Hev).
  rewrite relay_app, Hrun. cbn -[fmap]. unfold relay_step at 1.
  rewrite Hs. cbn -[fmap].
  rewrite relay_terminal by (right; reflexivity).
  eexists. split; [reflexivity|]. cbn -[fmap]. rewrite Hev, Hst, Hb.
  repeat split. apply Forall_fmap, Forall_forall. done.
Qed.

(** The scenario of two chunks followed by a rate limit. *)
Lemma C3_mid_stream_error_witness :
  let m := mkMeta "cmpl-1" 1234567890 "gpt" "openai" in
  let f := mkFailure RateLimited "rate_limited" "slow down" in
  let contents := ["Hello"; " world"]%string in
  contents ≠ [] ∧
  ∃ c, relay m ((UpChunk <$> contents) ++ UpFailure f :: [UpChunk "late"])
         connect = Some c ∧
       sse_events c = (chunk_event m <$> contents) ++ [error_event m f] ∧
       Forall (λ e, ev_finish_reason e = None) (chunk_event m <$> contents) ∧
       error_event m f =
         mkEvent (meta_id m) "chat.completion.chunk" (meta_created m)
           (meta_model m) (meta_provider m) "" (Some "error") None
           (Some (code f, message f)) ∧
       http_status c = Some 200%nat ∧ error_body c = None ∧
       closed c = true ∧ relay_state c = ERRORED.
Proof.
  intros m f contents.
  assert (Hne : contents ≠ []) by discriminate.
  split; [exact Hne|].
  exact (C3_mid_stream_error m contents f [UpChunk "late"] Hne).
Defined.

(** C7.  A failure that comes before any chunk is answered with the
    status of its cause (400 for invalid input, 401 or 402 for an
    authentication or credit failure, 429 for rate limiting, 502 or 503
    for an unavailable upstream), never 200, and with one JSON error body
    of the failure's code and message; no event is sent, and none is sent
    later, whatever upstream still delivers. *)
Theorem C7_pre_stream_error (m : Meta) (f : Failure) (rest : list Upstream) :
  ∃ c st, relay m (UpFailure f :: rest) connect = Some c ∧
          http_status c = Some st ∧ st ≠ 200%nat ∧
          match classify (cause f) with
          | invalid_input => st = 400%nat
          | auth_failure => st = 401%nat ∨ st = 402%nat
          | rate_limiting => st = 429%nat
          | upstream_unavailability => st = 502%nat ∨ st = 503%nat
          end ∧
          error_body c = Some (code f, message f) ∧
          sse_events c = [] ∧ closed c = true ∧ relay_state c = ERRORED.
Proof.
  cbn. rewrite relay_terminal by (right; reflexivity).
  eexists _, (error_status (cause f)). split; [reflexivity|]. cbn.
  split; [reflexivity|].
  destruct (cause f); cbn; repeat split; auto.
Qed.

(* ===================================================================== *)
(** * Further facts about the pacing transform *)
(* ===================================================================== *)

Import PacingSchedule.

Lemma spaced_text_run (out : list (TextStreamPart * Z)) :
  spaced out → Forall (λ e, type e.1 = "text") out →
  ∀ (j k : nat) cj tj ck tk,
    out !! j = Some (cj, tj) → out !! (j + k)%nat = Some (ck, tk) →
    tj + MIN_DELAY_MS * Z.of_nat k ≤ tk.
Proof.
  intros Hsp Htx j k. revert j.
  induction k as [|k IH]; intros j cj tj ck tk Hj Hk.
  - rewrite Nat.add_0_r in Hk. simplify_eq. lia.
  - replace (j + S k)%nat with (S (j + k)) in Hk by lia.
    destruct (out !! (j + k)%nat) as [[cm tm]|] eqn:Hm.
    2: { apply lookup_ge_None in Hm. apply lookup_lt_Some in Hk. lia. }
    pose proof (IH j cj tj cm tm Hj Hm) as Hle.
    assert (type ck = "text") as Hck.
    { apply (Forall_lookup_1 _ _ _ _ Htx Hk). }
    pose proof (Hsp _ _ _ _ _ Hm Hk Hck). lia.
Qed.

(** X1.  A stream of text chunks cannot be emitted faster than one chunk
    every [MIN_DELAY_MS]: with timers that never fire early, the chunk at
    position [j + k] of the output is enqueued at least
    [k * MIN_DELAY_MS] after the chunk at position [j]. *)
Theorem X1_text_rate_limit (sched : list Arrival) (t0 : Z) :
  Forall (λ a, 0 ≤ late_by a) sched →
  Forall (λ a, type (chunk_of a) = "text") sched →
  ∃ s, run (paced sched) (init t0) = Some s ∧
       ∀ (j k : nat) cj tj ck tk,
         emitted s !! j = Some (cj, tj) →
         emitted s !! (j + k)%nat = Some (ck, tk) →
         tj + MIN_DELAY_MS * Z.of_nat k ≤ tk.
Proof.
  intros Hl Ht.
  destruct (run_paced sched (init t0) (idle_init t0))
    as (s & Hrun & _ & Hch & _ & Hinv).
  destruct Hinv as [Hsp _]; [exact Hl | | |].
  - intros i c1 t1 c2 t2 H1. cbn in H1. rewrite lookup_nil in H1. done.
  - intros c t H. cbn in H. done.
  - exists s. split; [exact Hrun|]. apply spaced_text_run; [exact Hsp|].
    cbn in Hch. unfold chunks in Hch.
    assert (Forall (λ c, type c = "text") (chunk_of <$> sched)) as Hc
      by (apply Forall_fmap; exact Ht).
    rewrite <- Hch in Hc. apply Forall_fmap in Hc. exact Hc.
Qed.

(** Three text chunks that arrive in one burst. *)
Lemma X1_text_rate_limit_witness :
  let sched := [mkArrival 0 (mkPart "text" "a") 0;
                mkArrival 0 (mkPart "text" "b") 1;
                mkArrival 0 (mkPart "text" "c") 0] in
  Forall (λ a, 0 ≤ late_by a) sched ∧
  Forall (λ a, type (chunk_of a) = "text") sched ∧
  ∃ s, run (paced sched) (init 1000) = Some s ∧
       ∀ (j k : nat) cj tj ck tk,
         emitted s !! j = Some (cj, tj) →
         emitted s !! (j + k)%nat = Some (ck, tk) →
         tj + MIN_DELAY_MS * Z.of_nat k ≤ tk.
Proof.
  intros sched.
  assert (Hl : Forall (λ a, 0 ≤ late_by a) sched)
    by (repeat constructor; cbn; lia).
  assert (Ht : Forall (λ a, type (chunk_of a) = "text") sched)
    by (repeat constructor).
  split; [exact Hl|]. split; [exact Ht|].
  exact (X1_text_rate_limit sched 1000 Hl Ht).
Defined.

Lemma run_slow (sched : list Arrival) (s : Session) :
  idle s = true → lastChunkTime s ≤ clock s →
  Forall (λ a, MIN_DELAY_MS ≤ gap a) sched →
  ∃ s', run (paced sched) s = Some s' ∧ idle s' = true ∧
        emitted s' = emitted s ++ arrivals (clock s) sched ∧
        enqueue_calls s' = enqueue_calls s ++ arrivals (clock s) sched.
Proof.
  revert s. induction sched as [|a sched IH]; intros s Hi Hmono Hgaps.
  - exists s. cbn. rewrite !app_nil_r. done.
  - apply Forall_cons in Hgaps as [Hg Hgaps].
    pose proof Hi as (Hp & Hr & Hj)%idle_inv.
    assert (Hnow : (clock s + gap a - lastChunkTime s <? MIN_DELAY_MS) = false)
      by (apply Z.ltb_ge; lia).
    set (s1 := forwarded (chunk_of a) (with_clock (clock s + gap a) s)).
    assert (Hrun1 : run (paced [a]) s = Some s1).
    { unfold paced. cbn -[transform exec]. rewrite Hp. cbn -[transform exec].
      assert (Hi' : idle (with_clock (clock s + gap a) s) = true)
        by (apply idle_inv; cbn; auto).
      rewrite Hi'. cbn -[transform exec].
      rewrite exec_transform by exact Hr. cbn -[transform exec].
      rewrite Hnow, andb_false_r. reflexivity. }
    destruct (IH s1) as (s2 & Hrun2 & Hi2 & Hem & Hec); [| |exact Hgaps|].
    + apply idle_inv. cbn. auto.
    + cbn. lia.
    + exists s2. rewrite paced_cons, run_app, Hrun1. cbn -[paced].
      split; [exact Hrun2|]. split; [exact Hi2|].
      rewrite Hem, Hec. cbn. rewrite <- !app_assoc. done.
Qed.

(** X2.  A stream whose chunks come at least [MIN_DELAY_MS] apart is not
    slowed down: with a clock that starts at 0 or later, every chunk, text
    or not, is enqueued at the clock reading at which it was handed over,
    however late timers would be. *)
Theorem X2_slow_stream_undelayed (sched : list Arrival) (t0 : Z) :
  0 ≤ t0 → Forall (λ a, MIN_DELAY_MS ≤ gap a) sched →
  ∃ s, run (paced sched) (init t0) = Some s ∧
       emitted s = arrivals t0 sched.
Proof.
  intros Ht0 Hg.
  destruct (run_slow sched (init t0) (idle_init t0)) as (s & Hrun & _ & Hem & _);
    [cbn; lia | exact Hg |].
  exists s. split; [exact Hrun | exact Hem].
Qed.

(** Two text chunks 25 ms apart, with a timer that would be 7 ms late. *)
Lemma X2_slow_stream_undelayed_witness :
  let sched := [mkArrival 20 (mkPart "text" "a") 7;
                mkArrival 25 (mkPart "text" "b") 7] in
  0 ≤ 1000 ∧ Forall (λ a, MIN_DELAY_MS ≤ gap a) sched ∧
  ∃ s, run (paced sched) (init 1000) = Some s ∧
       emitted s = arrivals 1000 sched.
Proof.
  intros sched.
  assert (H0 : 0 ≤ 1000) by lia.
  assert (Hg : Forall (λ a, MIN_DELAY_MS ≤ gap a) sched)
    by (repeat constructor; cbn; unfold MIN_DELAY_MS; lia).
  split; [exact H0|]. split; [exact Hg|].
  exact (X2_slow_stream_undelayed sched 1000 H0 Hg).
Defined.

(* ===================================================================== *)
(** * Facts about the provider configuration queries *)
(* ===================================================================== *)

Import ProviderStore.

Lemma select_where_lookup (cond : SQL) (db : Table)
    (key : string * ProviderType) (row : ProviderConfigRow) :
  select_where cond db !! key = Some row ↔
  db !! key = Some row ∧ holds cond key = true.
Proof. unfold select_where. rewrite map_lookup_filter_Some. done. Qed.

Lemma save_lookup (now : Z) (uuid userId : string) (provider : ProviderType)
    (key : Value) (db db' : Table) :
  saveProviderConfig now uuid userId provider key db = Some db' →
  (∃ row, db' !! (userId, provider) = Some row ∧ apiKey row = key ∧
          updatedAt row = now ∧
          match db !! (userId, provider) with
          | Some old => row_id row = row_id old ∧ createdAt row = createdAt old
          | None => row_id row = uuid ∧ createdAt row = now
          end) ∧
  (∀ k, k ≠ (userId, provider) → db' !! k = db !! k).
Proof.
  unfold saveProviderConfig. intros [= <-]. split.
  - destruct (db !! (userId, provider)) as [old|];
      rewrite lookup_insert_eq; eexists; done.
  - intros k Hk.
    destruct (db !! (userId, provider)); rewrite lookup_insert_ne; done.
Qed.

Section QueryFacts.

Variable scan : Table → list ((string * ProviderType) * ProviderConfigRow).
Hypothesis scan_complete : ∀ m : Table, scan m ≡ₚ map_to_list m.

Lemma elem_of_scan (m : Table) (k : string * ProviderType)
    (row : ProviderConfigRow) :
  (k, row) ∈ scan m ↔ m !! k = Some row.
Proof. rewrite scan_complete. apply elem_of_map_to_list. Qed.

Lemma getProviderConfig_head (userId : string) (provider : ProviderType)
    (db : Table) :
  match scan (select_where (eq_provider provider) db) with
  | [] => getProviderConfig scan userId provider db = None
  | kr :: _ => getProviderConfig scan userId provider db = apiKey kr.2
  end.
Proof.
  unfold getProviderConfig, js_and.
  destruct (scan (select_where (eq_provider provider) db)); done.
Qed.

End QueryFacts.

(** X3.  [getProviderConfig] does not look at the user: its condition
    [eq(userId) && eq(provider)] is the provider condition alone.  When no
    user has a row for the provider the result is [undefined]; otherwise
    it is the key of a row for that provider, of whichever user the
    database returns first. *)
Theorem X3_getProviderConfig_any_user
    (scan : Table → list ((string * ProviderType) * ProviderConfigRow))
    (userId : string) (provider : ProviderType) (db : Table) :
  (∀ m : Table, scan m ≡ₚ map_to_list m) →
  ((∀ u, db !! (u, provider) = None) →
   getProviderConfig scan userId provider db = None) ∧
  (∀ u row, db !! (u, provider) = Some row →
     ∃ u' row', db !! (u', provider) = Some row' ∧
                getProviderConfig scan userId provider db = apiKey row').
Proof.
  intros Hscan.
  pose proof (getProviderConfig_head scan userId provider db) as Hhd.
  split.
  - intros Hnone.
    destruct (scan (select_where (eq_provider provider) db))
      as [|[[u p] row] rest] eqn:Hs; [exact Hhd|].
    assert (((u, p), row) ∈ scan (select_where (eq_provider provider) db))
      as Hin by (rewrite Hs; left).
    apply (elem_of_scan scan Hscan), select_where_lookup in Hin as [Hl Hh].
    cbn in Hh. apply bool_decide_eq_true in Hh. cbn in Hh. subst p.
    rewrite Hnone in Hl. done.
  - intros u row Hrow.
    destruct (scan (select_where (eq_provider provider) db))
      as [|[[u' p] row'] rest] eqn:Hs.
    + assert (((u, provider), row)
                ∈ scan (select_where (eq_provider provider) db)) as Hin.
      { apply (elem_of_scan scan Hscan), select_where_lookup.
        split; [exact Hrow|]. cbn. apply bool_decide_eq_true. done. }
      rewrite Hs in Hin. apply elem_of_nil in Hin. done.
    + assert (((u', p), row')
                ∈ scan (select_where (eq_provider provider) db))
        as Hin by (rewrite Hs; left).
      apply (elem_of_scan scan Hscan), select_where_lookup in Hin as [Hl Hh].
      cbn in Hh. apply bool_decide_eq_true in Hh. cbn in Hh. subst p.
      exists u', row'. split; [exact Hl | exact Hhd].
Qed.

(** Two users with a key for the same provider. *)
Lemma X3_getProviderConfig_any_user_witness :
  let db : Table :=
    {[ ("alice", openrouter) := mkRow "r1" 1 1 (Some (JString "ka"));
       ("bob", openrouter) := mkRow "r2" 2 2 (Some (JString "kb")) ]} in
  (∀ m : Table, map_to_list m ≡ₚ map_to_list m) ∧
  getProviderConfig map_to_list "carol" deepinfra db = None ∧
  ∃ u' row', db !! (u', openrouter) = Some row' ∧
             getProviderConfig map_to_list "carol" openrouter db = apiKey row'.
Proof.
  intros db.
  assert (Hscan : ∀ m : Table, map_to_list m ≡ₚ map_to_list m) by done.
  destruct (X3_getProviderConfig_any_user map_to_list "carol" deepinfra db Hscan)
    as [Hnone _].
  destruct (X3_getProviderConfig_any_user map_to_list "carol" openrouter db Hscan)
    as [_ Hsome].
  split; [exact Hscan|]. split.
  - apply Hnone. intros u. unfold db.
    rewrite lookup_insert_ne by done. rewrite lookup_singleton_ne; done.
  - apply (Hsome "alice" (mkRow "r1" 1 1 (Some (JString "ka")))).
    unfold db. apply lookup_insert_eq.
Defined.

(** X4.  A key saved for one user is handed to every user: when no other
    user has a row for the provider, after
    [saveProviderConfig(owner, provider, key)] the call
    [getProviderConfig(reader, provider)] returns that key for every
    [reader], the owner or not. *)
Theorem X4_saved_key_read_by_every_user
    (scan : Table → list ((string * ProviderType) * ProviderConfigRow))
    (now : Z) (uuid owner : string) (provider : ProviderType) (key : Value)
    (db db' : Table) :
  (∀ m : Table, scan m ≡ₚ map_to_list m) →
  (∀ u, u ≠ owner → db !! (u, provider) = None) →
  saveProviderConfig now uuid owner provider key db = Some db' →
  ∀ reader, getProviderConfig scan reader provider db' = key.
Proof.
  intros Hscan Hothers Hsave reader.
  destruct (save_lookup _ _ _ _ _ _ _ Hsave) as [(row & Hrow & Hkey & _) Hframe].
  destruct (X3_getProviderConfig_any_user scan reader provider db' Hscan)
    as [_ Hsome].
  destruct (Hsome owner row Hrow) as (u' & row' & Hrow' & ->).
  destruct (decide (u' = owner)) as [->|Hne]; [by simplify_eq|].
  rewrite Hframe, Hothers in Hrow' by congruence. done.
Qed.

(** A first key for a provider, read by another user. *)
Lemma X4_saved_key_read_by_every_user_witness :
  let db : Table :=
    {[ ("bob", deepinfra) := mkRow "r0" 1 1 (Some (JString "kb")) ]} in
  let row := mkRow "r1" 5 5 (Some (JString "ka")) in
  (∀ m : Table, map_to_list m ≡ₚ map_to_list m) ∧
  (∀ u, u ≠ "alice" → db !! (u, openrouter) = None) ∧
  saveProviderConfig 5 "r1" "alice" openrouter (Some (JString "ka")) db
    = Some (<[("alice", openrouter) := row]> db) ∧
  getProviderConfig map_to_list "mallory" openrouter
    (<[("alice", openrouter) := row]> db) = Some (JString "ka").
Proof.
  intros db row.
  assert (Hscan : ∀ m : Table, map_to_list m ≡ₚ map_to_list m) by done.
  assert (Hothers : ∀ u, u ≠ "alice" → db !! (u, openrouter) = None).
  { intros u _. unfold db. apply lookup_singleton_ne. done. }
  assert (Hsave : saveProviderConfig 5 "r1" "alice" openrouter
                    (Some (JString "ka")) db
                  = Some (<[("alice", openrouter) := row]> db)).
  { unfold saveProviderConfig, db.
    rewrite lookup_singleton_ne by done. reflexivity. }
  split; [exact Hscan|]. split; [exact Hothers|]. split; [exact Hsave|].
  exact (X4_saved_key_read_by_every_user map_to_list 5 "r1" "alice" openrouter
           (Some (JString "ka")) db _ Hscan Hothers Hsave "mallory").
Defined.

(** X5.  [deleteProviderConfig(userId, provider)] deletes the rows of the
    provider for every user, not only for [userId], and leaves the rows of
    the other provider alone. *)
Theorem X5_delete_removes_provider_for_all
    (userId : string) (provider : ProviderType) (db : Table)
    (u : string) (p : ProviderType) :
  deleteProviderConfig userId provider db !! (u, p) =
    if decide (p = provider) then None else db !! (u, p).
Proof.
  unfold deleteProviderConfig, delete_where, js_and.
  destruct (decide (p = provider)) as [->|Hne].
  - apply map_lookup_filter_None. right. intros row _. cbn.
    rewrite bool_decide_eq_false. intros H. apply H. done.
  - destruct (db !! (u, p)) as [row|] eqn:Hrow.
    + apply map_lookup_filter_Some. split; [exact Hrow|]. cbn.
      apply bool_decide_eq_false. done.
    + apply map_lookup_filter_None. left. exact Hrow.
Qed.

(** X6.  [getAllProviderConfigs(userId)] returns the rows of that user and
    no others, each once. *)
Theorem X6_getAll_exactly_own_rows
    (scan : Table → list ((string * ProviderType) * ProviderConfigRow))
    (userId : string) (db : Table) :
  (∀ m : Table, scan m ≡ₚ map_to_list m) →
  NoDup (getAllProviderConfigs scan userId db) ∧
  ∀ u p row,
    ((u, p), row) ∈ getAllProviderConfigs scan userId db ↔
    u = userId ∧ db !! (u, p) = Some row.
Proof.
  intros Hscan. unfold getAllProviderConfigs. split.
  - rewrite Hscan. apply NoDup_map_to_list.
  - intros u p row. rewrite (elem_of_scan scan Hscan), select_where_lookup.
    cbn. rewrite bool_decide_eq_true. cbn. tauto.
Qed.

(** The rows of one of two users. *)
Lemma X6_getAll_exactly_own_rows_witness :
  let db : Table :=
    {[ ("alice", openrouter) := mkRow "r1" 1 1 (Some (JString "ka"));
       ("bob", openrouter) := mkRow "r2" 2 2 (Some (JString "kb")) ]} in
  (∀ m : Table, map_to_list m ≡ₚ map_to_list m) ∧
  NoDup (getAllProviderConfigs map_to_list "alice" db) ∧
  ∀ u p row,
    ((u, p), row) ∈ getAllProviderConfigs map_to_list "alice" db ↔
    u = "alice" ∧ db !! (u, p) = Some row.
Proof.
  intros db.
  assert (Hscan : ∀ m : Table, map_to_list m ≡ₚ map_to_list m) by done.
  split; [exact Hscan|].
  exact (X6_getAll_exactly_own_rows map_to_list "alice" db Hscan).
Defined.

(** X7.  After [saveProviderConfig(userId, provider, key)] the user's list
    holds one row for the provider, with the new key and update time; a
    row that existed keeps its id and creation time; and what
    [getAllProviderConfigs] lists for the other users is unchanged. *)
Theorem X7_save_then_getAll
    (scan : Table → list ((string * ProviderType) * ProviderConfigRow))
    (now : Z) (uuid userId : string) (provider : ProviderType) (key : Value)
    (db db' : Table) :
  (∀ m : Table, scan m ≡ₚ map_to_list m) →
  saveProviderConfig now uuid userId provider key db = Some db' →
  (∃ row, (∀ row', ((userId, provider), row')
                     ∈ getAllProviderConfigs scan userId db' ↔ row' = row) ∧
          apiKey row = key ∧ updatedAt row = now ∧
          match db !! (userId, provider) with
          | Some old => row_id row = row_id old ∧ createdAt row = createdAt old
          | None => row_id row = uuid ∧ createdAt row = now
          end) ∧
  (∀ other x, other ≠ userId →
     x ∈ getAllProviderConfigs scan other db' ↔
     x ∈ getAllProviderConfigs scan other db).
Proof.
  intros Hscan Hsave.
  destruct (save_lookup _ _ _ _ _ _ _ Hsave)
    as [(row & Hrow & Hkey & Hup & Hold) Hframe].
  split.
  - exists row. split; [|done].
    intros row'.
    destruct (X6_getAll_exactly_own_rows scan userId db' Hscan) as [_ Hin].
    rewrite Hin, Hrow. split; [intros [_ [= <-]]; done | intros ->; done].
  - intros other [[u p] r] Hne.
    destruct (X6_getAll_exactly_own_rows scan other db' Hscan) as [_ Hin'].
    destruct (X6_getAll_exactly_own_rows scan other db Hscan) as [_ Hin].
    rewrite Hin', Hin. split; intros [-> Hl]; (split; [done|]).
    + rewrite <- Hframe; [exact Hl | congruence].
    + rewrite Hframe; [exact Hl | congruence].
Qed.

(** A second save for the same user and provider. *)
Lemma X7_save_then_getAll_witness :
  let old := mkRow "r1" 1 1 (Some (JString "old")) in
  let db : Table := {[ ("alice", openrouter) := old ]} in
  let db' : Table :=
    <[("alice", openrouter) := mkRow "r1" 1 9 (Some (JString "new"))]> db in
  (∀ m : Table, map_to_list m ≡ₚ map_to_list m) ∧
  saveProviderConfig 9 "r2" "alice" openrouter (Some (JString "new")) db
    = Some db' ∧
  ∃ row, (∀ row', (("alice", openrouter), row')
                    ∈ getAllProviderConfigs map_to_list "alice" db'
                  ↔ row' = row) ∧
         apiKey row = Some (JString "new") ∧ row_id row = "r1" ∧
         createdAt row = 1 ∧ updatedAt row = 9.
Proof.
  intros old db db'.
  assert (Hscan : ∀ m : Table, map_to_list m ≡ₚ map_to_list m) by done.
  assert (Hsave : saveProviderConfig 9 "r2" "alice" openrouter
                    (Some (JString "new")) db = Some db').
  { unfold saveProviderConfig, db. rewrite lookup_singleton_eq. reflexivity. }
  split; [exact Hscan|]. split; [exact Hsave|].
  destruct (X7_save_then_getAll map_to_list 9 "r2" "alice" openrouter
              (Some (JString "new")) db db' Hscan Hsave)
    as [(row & Hin & Hk & Hu & Hold) _].
  unfold db in Hold. rewrite lookup_singleton_eq in Hold.
  destruct Hold as [Hid Hc].
  exists row. done.
Defined.

(* ===================================================================== *)
(** * Facts about the language model selection *)
(* ===================================================================== *)

Import LanguageModels.

#[local] Arguments String.append !_ _ / : simpl nomatch.

Lemma string_app_length (a b : string) :
  String.length (a +:+ b) = (String.length a + String.length b)%nat.
Proof. induction a as [|c a IH]; cbn; [reflexivity | rewrite IH; reflexivity]. Qed.

Lemma startsWith_spec (pat s : string) :
  startsWith pat s = true ↔ ∃ rest, s = pat +:+ rest.
Proof.
  revert s. induction pat as [|a pat IH]; intros s; cbn.
  - split; [intros _; exists s; reflexivity | done].
  - destruct s as [|b s]; [split; [done | intros [rest [=]]]|].
    rewrite andb_true_iff, IH, Ascii.eqb_eq. split.
    + intros [-> [rest ->]]. exists rest. reflexivity.
    + intros [rest [= -> ->]]. eauto.
Qed.

Lemma includes_spec (s pat : string) :
  includes s pat = true ↔ ∃ before after, s = before +:+ pat +:+ after.
Proof.
  induction s as [|c s IH]; cbn [includes];
    rewrite orb_true_iff, startsWith_spec.
  - split.
    + intros [[rest ->]|[=]]. exists "", rest. reflexivity.
    + intros ([|c before] & after & H); [left; eauto | discriminate H].
  - rewrite IH. split.
    + intros [[rest ->]|(before & after & ->)].
      * exists "", rest. reflexivity.
      * exists (String c before), after. reflexivity.
    + intros ([|c' before] & after & H).
      * left. exists after. exact H.
      * right. injection H as -> ->. eauto.
Qed.

Lemma before_suffix_spec (suffix s base : string) :
  before_suffix suffix s = Some base ↔ s = base +:+ suffix.
Proof.
  split.
  - revert base. induction s as [|c s IH]; intros base; cbn [before_suffix].
    + destruct (String.eqb_spec "" suffix) as [<-|]; [|done].
      intros [= <-]. reflexivity.
    + destruct (String.eqb_spec (String c s) suffix) as [<-|_].
      * intros [= <-]. reflexivity.
      * destruct (before_suffix suffix s) as [b|]; [|done].
        intros [= <-]. cbn. f_equal. apply IH. reflexivity.
  - intros ->. induction base as [|c base IH].
    + change ("" +:+ suffix) with suffix.
      destruct suffix; cbn [before_suffix]; rewrite String.eqb_refl;
        reflexivity.
    + change (String c base +:+ suffix) with (String c (base +:+ suffix)).
      cbn [before_suffix].
      destruct (String.eqb_spec (String c (base +:+ suffix)) suffix) as [E|_].
      * apply (f_equal String.length) in E. cbn [String.length] in E.
        rewrite string_app_length in E. lia.
      * rewrite IH. reflexivity.
Qed.

Lemma endsWith_spec (s suffix : string) :
  endsWith s suffix = true ↔ ∃ base, s = base +:+ suffix.
Proof.
  unfold endsWith. rewrite bool_decide_eq_true. unfold is_Some.
  setoid_rewrite before_suffix_spec. done.
Qed.

Lemma createOpenRouterClient_spec (dflt stored : option string) :
  createOpenRouterClient dflt stored =
    if present stored then stored
    else if present dflt then dflt else None.
Proof.
  unfold createOpenRouterClient.
  destruct (present stored) eqn:E; cbn; [rewrite E; reflexivity|].
  destruct (present dflt); reflexivity.
Qed.

(** X8.  Outside the test environment a model is always created with a
    non-empty key: the user's stored key when there is a non-empty one,
    the key of the environment otherwise; and [getLanguageModel] throws
    exactly when both are missing or empty. *)
Theorem X8_api_key_precedence
    (dflt stored : option string) (modelId : string) :
  (getLanguageModel false dflt modelId stored = None ↔
   present stored = false ∧ present dflt = false) ∧
  (∀ m, getLanguageModel false dflt modelId stored = Some m →
     ∃ k, key_of m = Some k ∧ k ≠ "" ∧
          (stored = Some k ∨ present stored = false ∧ dflt = Some k)).
Proof.
  unfold getLanguageModel. rewrite createOpenRouterClient_spec. split.
  - destruct (present stored) eqn:Es.
    + destruct stored as [k|]; [|done]. cbn.
      destruct (_ || _); (split; [done | intros [? ?]; done]).
    + destruct (present dflt) eqn:Ed; [|done].
      destruct dflt as [k|]; [|done]. cbn.
      destruct (_ || _); (split; [done | intros [? ?]; done]).
  - intros m.
    assert (Hne : ∀ k, present (Some k) = true → k ≠ "").
    { intros k Hk ->. done. }
    destruct (present stored) eqn:Es.
    + destruct stored as [k|]; [|done]. cbn.
      destruct (_ || _); intros [= <-]; exists k; cbn; auto.
    + destruct (present dflt) eqn:Ed; [|done].
      destruct dflt as [k|]; [|done]. cbn.
      destruct (_ || _); intros [= <-]; exists k; cbn; auto.
Qed.

(** X9.  With a key [apiKey] at hand, a model id that ends in
    ["-thinking"] is requested from the gateway without that suffix, one
    suffix only, with the reasoning middleware on tag ["thinking"]; an id
    that does not end in it but contains ["reasoning"] is requested as it
    is, with the middleware; any other id is requested as it is, without
    the middleware. *)
Theorem X9_thinking_suffix
    (dflt stored : option string) (modelId apiKey : string) :
  createOpenRouterClient dflt stored = Some apiKey →
  (∀ base, modelId = base +:+ "-thinking" →
     getLanguageModel false dflt modelId stored =
       Some (openrouter_reasoning apiKey base "thinking")) ∧
  ((¬ ∃ base, modelId = base +:+ "-thinking") →
   (∃ before after, modelId = before +:+ "reasoning" +:+ after) →
     getLanguageModel false dflt modelId stored =
       Some (openrouter_reasoning apiKey modelId "thinking")) ∧
  ((¬ ∃ base, modelId = base +:+ "-thinking") →
   (¬ ∃ before after, modelId = before +:+ "reasoning" +:+ after) →
     getLanguageModel false dflt modelId stored =
       Some (openrouter_languageModel apiKey modelId)).
Proof.
  intros Hkey. unfold getLanguageModel. rewrite Hkey.
  cbn [mbind option_bind]. split; [|split].
  - intros base Hb.
    assert (endsWith modelId "-thinking" = true) as ->
      by (apply endsWith_spec; eauto).
    rewrite orb_true_r. unfold remove_thinking_suffix.
    apply before_suffix_spec in Hb. rewrite Hb. reflexivity.
  - intros Hn Hi. apply includes_spec in Hi. rewrite Hi. cbn.
    unfold remove_thinking_suffix.
    destruct (before_suffix "-thinking" modelId) as [b|] eqn:Hb; [|done].
    apply before_suffix_spec in Hb. exfalso. eauto.
  - intros Hn Hi.
    assert (includes modelId "reasoning" = false) as ->.
    { apply not_true_is_false. rewrite includes_spec. exact Hi. }
    assert (endsWith modelId "-thinking" = false) as ->.
    { apply not_true_is_false. rewrite endsWith_spec. exact Hn. }
    reflexivity.
Qed.

(** A thinking model requested with the key of the environment. *)
Lemma X9_thinking_suffix_witness :
  let modelId := "anthropic/claude-thinking" in
  createOpenRouterClient (Some "env-key") (Some "") = Some "env-key" ∧
  getLanguageModel false (Some "env-key") modelId (Some "") =
    Some (openrouter_reasoning "env-key" "anthropic/claude" "thinking").
Proof.
  intros modelId.
  assert (Hk : createOpenRouterClient (Some "env-key") (Some "")
               = Some "env-key") by reflexivity.
  split; [exact Hk|].
  destruct (X9_thinking_suffix (Some "env-key") (Some "") modelId "env-key" Hk)
    as [H _].
  exact (H "anthropic/claude" eq_refl).
Defined.

(* ===================================================================== *)
(** * Facts about the chat page *)
(* ===================================================================== *)

(** X10.  Who gets to see a chat.  The page is rendered only with a
    session; a private chat is rendered only for the user who owns it; and
    whenever the page is rendered it is read-only exactly when the viewer
    is not the owner, so a chat that is not private is shown to others
    read-only. *)
Theorem X10_chat_page_access {Message UIMessage : Type}
    (convert : list Message → list UIMessage) (default_model : string)
    (chat : ChatPage.Chat) (session : option AuthSession)
    (messages : list Message) (cookie : option string)
    (props : ChatPage.ChatProps) :
  ChatPage.ChatPage convert default_model (Some chat) session messages cookie
    = ChatPage.render props →
  ∃ s, session = Some s ∧
       (ChatPage.visibility chat = "private" →
        (user s ≫= ProviderConfig.id) = Some (ChatPage.chat_userId chat)) ∧
       (ChatPage.isReadonly props = false ↔
        (user s ≫= ProviderConfig.id) = Some (ChatPage.chat_userId chat)) ∧
       ChatPage.id props = ChatPage.chat_id chat ∧
       ChatPage.initialMessages props = convert messages.
Proof.
  unfold ChatPage.ChatPage. destruct session as [s|]; [|done].
  intros H. exists s. split; [reflexivity|].
  destruct (String.eqb_spec (ChatPage.visibility chat) "private") as [Hv|Hv];
    cbn in H.
  - destruct (bool_decide (is_Some (user s))); cbn in H; [|done].
    unfold ChatPage.is_owner in H.
    case_bool_decide as Ho; cbn in H; [|done].
    injection H as <-. cbn. done.
  - injection H as <-. cbn. unfold ChatPage.is_owner.
    split; [done|]. split; [|done].
    rewrite negb_false_iff, bool_decide_eq_true. done.
Qed.

(** A public chat seen by a user who does not own it. *)
Lemma X10_chat_page_access_witness :
  let chat := ChatPage.mkChat "c1" "alice" "public" None None None in
  let session := Some (mkAuthSession (Some (mkUser (Some "bob")))) in
  let props :=
    ChatPage.mkChatProps true "c1" "default-model" []
      "public" true (ChatPage.mkInitialSettings None None None) in
  ChatPage.ChatPage (λ l : list nat, l) "default-model" (Some chat) session
      [] None = ChatPage.render props ∧
  ∃ s, session = Some s ∧
       (ChatPage.visibility chat = "private" →
        (user s ≫= ProviderConfig.id) = Some (ChatPage.chat_userId chat)) ∧
       (ChatPage.isReadonly props = false ↔
        (user s ≫= ProviderConfig.id) = Some (ChatPage.chat_userId chat)) ∧
       ChatPage.id props = ChatPage.chat_id chat ∧
       ChatPage.initialMessages props = [].
Proof.
  intros chat session props.
  assert (H : ChatPage.ChatPage (λ l : list nat, l) "default-model"
                (Some chat) session [] None = ChatPage.render props)
    by reflexivity.
  split; [exact H|].
  exact (X10_chat_page_access _ _ chat session [] None props H).
Defined.

(** X11.  The model a chat opens with: the model stored with the chat
    when it is a non-empty string; failing that the value of the
    [chat-model] cookie when it is non-empty; the default model only when
    both are missing or empty.  The settings handed to the page never hold
    an empty string. *)
Theorem X11_chat_model_precedence {Message UIMessage : Type}
    (convert : list Message → list UIMessage) (default_model : string)
    (chat : ChatPage.Chat) (session : option AuthSession)
    (messages : list Message) (cookie : option string)
    (props : ChatPage.ChatProps) :
  ChatPage.ChatPage convert default_model (Some chat) session messages cookie
    = ChatPage.render props →
  (∀ m, ChatPage.model chat = Some m → m ≠ "" →
        ChatPage.initialChatModel props = m) ∧
  (ChatPage.model chat = None ∨ ChatPage.model chat = Some "" →
   (∀ c, cookie = Some c → c ≠ "" → ChatPage.initialChatModel props = c) ∧
   (cookie = None ∨ cookie = Some "" →
    ChatPage.initialChatModel props = default_model)) ∧
  ChatPage.settings_model (ChatPage.initialSettings props) ≠ Some "" ∧
  ChatPage.settings_systemInstruction (ChatPage.initialSettings props)
    ≠ Some "" ∧
  ChatPage.settings_temperature (ChatPage.initialSettings props) ≠ Some "".
Proof.
  assert (Hor : ∀ v, ChatPage.or_undefined v ≠ Some "").
  { intros [v|]; cbn; [|done].
    destruct (String.eqb_spec v ""); [done | congruence]. }
  assert (Hset : ∀ v, v ≠ "" → ChatPage.or_undefined (Some v) = Some v).
  { intros v Hv. cbn. destruct (String.eqb_spec v ""); done. }
  unfold ChatPage.ChatPage. destruct session as [s|]; [|done].
  destruct (_ && _); [done|]. intros [= <-]. cbn.
  split; [|split; [|auto]].
  - intros m -> Hm. rewrite Hset by exact Hm. reflexivity.
  - intros Hm.
    assert (ChatPage.or_undefined (ChatPage.model chat) = None) as ->
      by (destruct Hm as [-> | ->]; reflexivity).
    split.
    + intros c -> Hc. rewrite Hset by exact Hc. reflexivity.
    + intros [-> | ->]; reflexivity.
Qed.

(** A chat without a model, opened with a cookie. *)
Lemma X11_chat_model_precedence_witness :
  let chat := ChatPage.mkChat "c1" "alice" "private" (Some "") None None in
  let session := Some (mkAuthSession (Some (mkUser (Some "alice")))) in
  let props :=
    ChatPage.mkChatProps true "c1" "cookie-model" []
      "private" false (ChatPage.mkInitialSettings None None None) in
  ChatPage.ChatPage (λ l : list nat, l) "default-model" (Some chat) session
      [] (Some "cookie-model") = ChatPage.render props ∧
  ChatPage.initialChatModel props = "cookie-model".
Proof.
  intros chat session props.
  assert (H : ChatPage.ChatPage (λ l : list nat, l) "default-model"
                (Some chat) session [] (Some "cookie-model")
              = ChatPage.render props)
    by reflexivity.
  split; [exact H|].
  destruct (X11_chat_model_precedence _ _ chat session [] _ props H)
    as (_ & Hc & _).
  destruct (Hc ltac:(right; reflexivity)) as [Hck _].
  apply (Hck "cookie-model"); done.
Defined.

(* ===================================================================== *)
(** * Facts about the text utilities of the file server *)
(* ===================================================================== *)

Import McpText.

Lemma split_lines_nonempty (content : jsstring) : split_lines content ≠ [].
Proof.
  induction content as [|c rest IH]; cbn; [done|].
  destruct (c =? LF); [done|]. destruct (split_lines rest); done.
Qed.

Lemma join_split_lines (content : jsstring) :
  join_lines (split_lines content) = content.
Proof.
  induction content as [|c rest IH]; cbn; [done|].
  destruct (Z.eqb_spec c LF) as [->|_].
  - pose proof (split_lines_nonempty rest).
    cbn. destruct (split_lines rest) as [|l ls]; [done|]. cbn in *.
    rewrite IH. done.
  - pose proof (split_lines_nonempty rest).
    destruct (split_lines rest) as [|l ls]; [done|].
    cbn in *. destruct ls; cbn in *; rewrite <- IH; done.
Qed.

Lemma split_lines_no_LF (content : jsstring) :
  Forall (λ line, LF ∉ line) (split_lines content).
Proof.
  induction content as [|c rest IH]; cbn.
  - repeat constructor. apply not_elem_of_nil.
  - destruct (Z.eqb_spec c LF) as [->|Hc].
    + constructor; [apply not_elem_of_nil | exact IH].
    + destruct (split_lines rest) as [|l ls].
      * repeat constructor. rewrite list_elem_of_singleton. done.
      * apply Forall_cons in IH as [Hl Hls]. constructor; [|exact Hls].
        rewrite elem_of_cons. intros [?|?]; done.
Qed.

Lemma split_lines_line (line : jsstring) :
  LF ∉ line → split_lines line = [line].
Proof.
  induction line as [|c line IH]; intros Hn; cbn; [done|].
  apply not_elem_of_cons in Hn as [Hc Hn].
  destruct (Z.eqb_spec c LF); [done|]. rewrite IH by exact Hn. done.
Qed.

Lemma split_lines_app_LF (line rest : jsstring) :
  LF ∉ line → split_lines (line ++ LF :: rest) = line :: split_lines rest.
Proof.
  induction line as [|c line IH]; intros Hn; cbn.
  - reflexivity.
  - apply not_elem_of_cons in Hn as [Hc Hn].
    destruct (Z.eqb_spec c LF); [done|]. rewrite IH by exact Hn. done.
Qed.

Lemma split_join_lines (g : list jsstring) :
  g ≠ [] → Forall (λ line, LF ∉ line) g → split_lines (join_lines g) = g.
Proof.
  induction g as [|l g IH]; intros Hne Hg; [done|].
  apply Forall_cons in Hg as [Hl Hg]. destruct g as [|l' g].
  - cbn. apply split_lines_line. exact Hl.
  - change (join_lines (l :: l' :: g)) with (l ++ LF :: join_lines (l' :: g)).
    rewrite split_lines_app_LF by exact Hl. rewrite IH; done.
Qed.

Lemma join_lines_app (g1 g2 : list jsstring) :
  g1 ≠ [] → g2 ≠ [] →
  join_lines (g1 ++ g2) = join_lines g1 ++ LF :: join_lines g2.
Proof.
  induction g1 as [|l g1 IH]; intros H1 H2; [done|].
  destruct g1 as [|l' g1].
  - cbn. destruct g2; done.
  - change (join_lines ((l :: l' :: g1) ++ g2))
      with (l ++ LF :: join_lines ((l' :: g1) ++ g2)).
    rewrite IH by done. cbn. rewrite <- app_assoc. done.
Qed.

Lemma join_lines_concat (gs : list (list jsstring)) :
  Forall (λ g, g ≠ []) gs →
  join_lines (join_lines <$> gs) = join_lines (concat gs).
Proof.
  induction gs as [|g gs IH]; intros Hgs; [done|].
  apply Forall_cons in Hgs as [Hg Hgs]. destruct gs as [|g' gs].
  - cbn. rewrite app_nil_r. done.
  - change (join_lines (join_lines <$> g :: g' :: gs))
      with (join_lines g ++ LF :: join_lines (join_lines <$> g' :: gs)).
    rewrite IH by exact Hgs. cbn [concat].
    rewrite (join_lines_app g (g' ++ concat gs)); [done | exact Hg |].
    apply Forall_cons in Hgs as [Hg' _]. destruct g'; done.
Qed.

Lemma line_tokens_app (g1 g2 : list jsstring) :
  line_tokens (g1 ++ g2) = line_tokens g1 + line_tokens g2.
Proof.
  unfold line_tokens. induction g1 as [|l g1 IH]; cbn; [done|].
  rewrite IH. lia.
Qed.

Lemma line_tokens_concat (gs : list (list jsstring)) (ps : list Page)
    (maxTokensPerPage : Z) :
  Forall2 (grouped maxTokensPerPage) gs ps →
  line_tokens (concat gs) = total_tokens ps.
Proof.
  induction 1 as [|g p gs ps (_ & _ & Ht & _) _ IH]; cbn; [done|].
  rewrite line_tokens_app, IH, Ht. done.
Qed.

Lemma paginate_step_inv (maxTokensPerPage : Z) (st : Paging)
    (done : list jsstring) (line : jsstring) :
  paging_inv maxTokensPerPage st done →
  paging_inv maxTokensPerPage (paginate_step maxTokensPerPage st line)
    (done ++ [line]).
Proof.
  intros (gs & Hgs & Hcat & Hcnt & Hbound & Hempty).
  unfold paginate_step.
  destruct (Z.ltb_spec maxTokensPerPage
              (currentTokenCount st + estimateTokens (line ++ [LF])))
    as [Hover|Hfits];
    [destruct (currentPage st) as [|l0 cur] eqn:Hcur|]; cbn [andb Nat.ltb Nat.leb length].
  - exists gs. cbn. rewrite app_nil_r in Hcat.
    split; [exact Hgs|]. split; [rewrite Hcat; done|].
    split; [rewrite Hcnt; cbn; lia|]. split; [right; lia | intros [=]].
  - exists (gs ++ [l0 :: cur]). cbn. split; [|split; [|split; [|split]]].
    + apply Forall2_app; [exact Hgs|]. constructor; [|constructor].
      unfold grouped. cbn [page_content tokenCount].
      split; [done|]. split; [done|]. split; [exact Hcnt|].
      destruct Hbound as [?|Hlen]; [left; lia|].
      right. cbn in Hlen. destruct cur; cbn in *; [done | lia].
    + rewrite concat_app. cbn. rewrite app_nil_r, <- Hcat, <- app_assoc. done.
    + lia.
    + right. lia.
    + intros [=].
  - exists gs. cbn. split; [exact Hgs|]. split; [|split; [|split]].
    + rewrite <- Hcat, <- app_assoc. done.
    + rewrite line_tokens_app, Hcnt. unfold line_tokens. cbn. lia.
    + left. lia.
    + intros H. apply app_eq_nil in H as [_ [=]].
Qed.

Lemma paginate_loop_inv (maxTokensPerPage : Z) (lines : list jsstring)
    (st : Paging) (done : list jsstring) :
  paging_inv maxTokensPerPage st done →
  paging_inv maxTokensPerPage
    (foldl (paginate_step maxTokensPerPage) st lines) (done ++ lines).
Proof.
  revert st done. induction lines as [|line lines IH]; intros st done Hinv.
  - rewrite app_nil_r. exact Hinv.
  - cbn. replace (done ++ line :: lines) with ((done ++ [line]) ++ lines)
      by (rewrite <- app_assoc; done).
    apply IH, paginate_step_inv, Hinv.
Qed.

Lemma paginate_groups (content : jsstring) (maxTokensPerPage : Z) :
  ∃ gs, Forall2 (grouped maxTokensPerPage) gs
          (paginateByTokens content maxTokensPerPage) ∧
        concat gs = split_lines content ∧ gs ≠ [].
Proof.
  unfold paginateByTokens.
  destruct (paginate_loop_inv maxTokensPerPage (split_lines content)
              (mkPaging [] [] 0) [])
    as (gs & Hgs & Hcat & Hcnt & Hbound & Hempty).
  { exists []. cbn. repeat split; auto. }
  cbn [app] in *.
  set (st := foldl _ _ _) in *.
  destruct (currentPage st) as [|l0 cur] eqn:Hcur.
  - pose proof (split_lines_nonempty content). rewrite Hempty in *; done.
  - cbn [length Nat.ltb Nat.leb]. exists (gs ++ [l0 :: cur]).
    split; [|split].
    + apply Forall2_app; [exact Hgs|]. constructor; [|constructor].
      unfold grouped. cbn [page_content tokenCount].
      split; [done|]. split; [done|]. split; [exact Hcnt|].
      destruct Hbound as [?|Hlen]; [left; lia|].
      right. cbn in Hlen. destruct cur; cbn in *; [done | lia].
    + rewrite concat_app. cbn. rewrite app_nil_r. exact Hcat.
    + destruct gs; done.
Qed.

(** X12.  Pagination loses nothing and never yields an empty list: the
    contents of the pages, joined with line feeds, are the content that
    was paginated, whatever the page limit; the content of an empty file
    comes back as one page. *)
Theorem X12_pages_reassemble (content : jsstring) (maxTokensPerPage : Z) :
  paginateByTokens content maxTokensPerPage ≠ [] ∧
  join_lines (page_content <$> paginateByTokens content maxTokensPerPage)
    = content.
Proof.
  destruct (paginate_groups content maxTokensPerPage) as (gs & Hgs & Hcat & Hne).
  split.
  - intros Hnil. rewrite Hnil in Hgs. apply Forall2_nil_inv_r in Hgs. done.
  - assert (page_content <$> paginateByTokens content maxTokensPerPage
            = join_lines <$> gs) as ->.
    { clear Hcat Hne. induction Hgs as [|g p gs ps (_ & Hc & _) _ IH]; cbn;
        [done | rewrite Hc, IH; done]. }
    rewrite join_lines_concat, Hcat, join_split_lines; [done|].
    clear Hcat Hne. induction Hgs as [|g p gs ps (Hg & _) _ IH];
      constructor; done.
Qed.

(** X13.  What a page counts and how large it gets: the token count of
    every page is the sum of the estimates of its lines, each with its
    line feed; a page goes over the limit only when it is a single line;
    and the counts of all pages add up to the estimate of all lines of the
    content. *)
Theorem X13_page_token_counts (content : jsstring) (maxTokensPerPage : Z) :
  Forall (λ p, tokenCount p = line_tokens (split_lines (page_content p)) ∧
               (tokenCount p ≤ maxTokensPerPage ∨ LF ∉ page_content p))
    (paginateByTokens content maxTokensPerPage) ∧
  total_tokens (paginateByTokens content maxTokensPerPage)
    = line_tokens (split_lines content).
Proof.
  destruct (paginate_groups content maxTokensPerPage) as (gs & Hgs & Hcat & _).
  split.
  - pose proof (split_lines_no_LF content) as Hno. rewrite <- Hcat in Hno.
    clear Hcat.
    induction Hgs as [|g p gs ps (Hg & Hc & Ht & Hb) _ IH]; [constructor|].
    cbn in Hno. apply Forall_app in Hno as [Hnog Hno].
    constructor; [|apply IH, Hno].
    rewrite Hc, split_join_lines by done. split; [exact Ht|].
    destruct Hb as [Hle|Hone]; [left; lia|]. right.
    destruct g as [|l [|? ?]]; try done. cbn.
    apply Forall_cons in Hnog as [Hl _]. exact Hl.
  - rewrite <- Hcat. symmetry. eapply line_tokens_concat, Hgs.
Qed.

(** ** The content hash *)

Lemma ToInt32_range (x : Z) : -2147483648 ≤ ToInt32 x < 2147483648.
Proof.
  unfold ToInt32.
  pose proof (Z.mod_pos_bound (x + 2147483648) 4294967296 ltac:(lia)). lia.
Qed.

Lemma ToInt32_shift (x k : Z) : ToInt32 (x + k * 4294967296) = ToInt32 x.
Proof.
  unfold ToInt32.
  replace (x + k * 4294967296 + 2147483648)
    with (x + 2147483648 + k * 4294967296) by lia.
  rewrite Z.mod_add by lia. reflexivity.
Qed.

Lemma ToInt32_multiple (x : Z) : ∃ k, ToInt32 x = x + k * 4294967296.
Proof.
  exists (- ((x + 2147483648) / 4294967296)). unfold ToInt32.
  pose proof (Z.div_mod (x + 2147483648) 4294967296 ltac:(lia)). lia.
Qed.

Lemma hash_step_poly (p char : Z) :
  hash_step (ToInt32 p) char = ToInt32 (31 * p + char).
Proof.
  unfold hash_step, bitand, shl. rewrite Z.land_diag.
  change (Z.land 5 31) with 5. rewrite Z.shiftl_mul_pow2 by lia.
  change (2 ^ 5) with 32.
  destruct (ToInt32_multiple (ToInt32 p)) as [k1 Hk1].
  destruct (ToInt32_multiple p) as [k2 Hk2].
  destruct (ToInt32_multiple (ToInt32 (ToInt32 p) * 32)) as [k3 Hk3].
  rewrite Hk3, Hk1, Hk2.
  replace ((p + k2 * 4294967296 + k1 * 4294967296) * 32 + k3 * 4294967296
           - (p + k2 * 4294967296) + char)
    with (31 * p + char + (32 * k1 + 31 * k2 + k3) * 4294967296) by lia.
  apply ToInt32_shift.
Qed.

Lemma hash_loop_poly (content : jsstring) (p : Z) :
  foldl hash_step (ToInt32 p) content =
    ToInt32 (foldl (λ h c, 31 * h + c) p content).
Proof.
  revert p. induction content as [|c content IH]; intros p; cbn; [done|].
  rewrite hash_step_poly. apply IH.
Qed.

(** X14.  The content hash is the polynomial hash with multiplier 31 over
    the code units, wrapped to a signed 32-bit integer and written in
    base 36: contents with the same polynomial modulo [2^32] get the same
    hash. *)
Theorem X14_hashContent_polynomial (content : jsstring) :
  hashContent content = toString36 (ToInt32 (poly31 content)) ∧
  -2147483648 ≤ foldl hash_step 0 content < 2147483648 ∧
  ∀ content', (poly31 content - poly31 content') mod 4294967296 = 0 →
              hashContent content' = hashContent content.
Proof.
  assert (Hloop : ∀ c, foldl hash_step 0 c = ToInt32 (poly31 c)).
  { intros c. apply (hash_loop_poly c 0). }
  unfold hashContent. rewrite Hloop. split; [done|].
  split; [apply ToInt32_range|].
  intros content' Hmod. rewrite Hloop. f_equal.
  apply Z.mod_divide in Hmod as [k Hk]; [|lia].
  replace (poly31 content) with (poly31 content' + k * 4294967296) by lia.
  symmetry. apply ToInt32_shift.
Qed.

(* ===================================================================== *)
(** * Facts about the update operations of the file server *)
(* ===================================================================== *)

Lemma split_lines_app (a b : jsstring) :
  split_lines (a ++ LF :: b) = split_lines a ++ split_lines b.
Proof.
  induction a as [|c a IH]; [reflexivity|].
  cbn [app split_lines]. rewrite IH. destruct (c =? LF); [reflexivity|].
  pose proof (split_lines_nonempty a).
  destruct (split_lines a); [done | reflexivity].
Qed.

Lemma split_lines_join (ls : list jsstring) :
  ls ≠ [] → split_lines (join_lines ls) = concat (split_lines <$> ls).
Proof.
  induction ls as [|l ls IH]; intros Hne; [done|]. destruct ls as [|l' ls].
  - cbn. rewrite app_nil_r. done.
  - change (join_lines (l :: l' :: ls)) with (l ++ LF :: join_lines (l' :: ls)).
    rewrite split_lines_app, IH by done. reflexivity.
Qed.

Lemma concat_split_lines (ls : list jsstring) :
  Forall (λ line, LF ∉ line) ls → concat (split_lines <$> ls) = ls.
Proof.
  induction 1 as [|l ls Hl _ IH]; cbn; [done|].
  rewrite split_lines_line, IH by exact Hl. done.
Qed.

Lemma split_lines_spliced (before after : list jsstring) (new : jsstring) :
  Forall (λ line, LF ∉ line) before → Forall (λ line, LF ∉ line) after →
  split_lines (join_lines (before ++ new :: after))
    = before ++ split_lines new ++ after.
Proof.
  intros Hb Ha. rewrite split_lines_join by (destruct before; done).
  rewrite fmap_app, concat_app. cbn.
  rewrite !concat_split_lines by assumption. done.
Qed.

Lemma ends_with_LF_snoc (body : jsstring) :
  McpTools.ends_with_LF (body ++ [LF]) = true.
Proof. unfold McpTools.ends_with_LF. rewrite last_snoc. done. Qed.

(** X15.  Where appended and prepended text goes.  Appending to a content
    that does not end in a line feed, the empty content of a new file
    included, starts the text on a new line after all lines of the
    content, so appending to an empty content leaves an empty first line;
    after a content that ends in a line feed the text follows with no
    empty line between.  Prepending puts the lines of the text before
    those of the content in the same way. *)
Theorem X15_append_prepend_lines (content new_string : jsstring) :
  (McpTools.ends_with_LF content = false →
   split_lines (McpTools.op_append content new_string)
     = split_lines content ++ split_lines new_string) ∧
  (∀ body, content = body ++ [LF] →
   split_lines (McpTools.op_append content new_string)
     = split_lines body ++ split_lines new_string) ∧
  McpTools.op_append [] new_string = LF :: new_string ∧
  (McpTools.ends_with_LF new_string = false →
   split_lines (McpTools.op_prepend content new_string)
     = split_lines new_string ++ split_lines content) ∧
  (∀ body, new_string = body ++ [LF] →
   split_lines (McpTools.op_prepend content new_string)
     = split_lines body ++ split_lines content).
Proof.
  unfold McpTools.op_append, McpTools.op_prepend.
  split; [|split; [|split; [|split]]].
  - intros ->. apply split_lines_app.
  - intros body ->. rewrite ends_with_LF_snoc. cbn [app].
    rewrite <- app_assoc. apply split_lines_app.
  - reflexivity.
  - intros ->. apply split_lines_app.
  - intros body ->. rewrite ends_with_LF_snoc. cbn [app].
    rewrite <- app_assoc. apply split_lines_app.
Qed.

(** X16.  Replacing a line: for a line number from 1 to the number of
    lines, the lines before and after the numbered line stay and the
    lines of the new text take its place, so a new text without line feed
    leaves the number of lines as it was; for any other line number the
    content is left as it is. *)
Theorem X16_line_replaces_one_line
    (content new_string : jsstring) (line_number : Z) :
  let lines := split_lines content in
  (1 ≤ line_number ≤ Z.of_nat (length lines) →
   split_lines (McpTools.op_line content line_number new_string)
     = take (Z.to_nat (line_number - 1)) lines ++ split_lines new_string
       ++ drop (Z.to_nat line_number) lines) ∧
  (1 ≤ line_number ≤ Z.of_nat (length lines) → LF ∉ new_string →
   split_lines (McpTools.op_line content line_number new_string)
     = <[Z.to_nat (line_number - 1) := new_string]> lines) ∧
  (line_number < 1 ∨ Z.of_nat (length lines) < line_number →
   McpTools.op_line content line_number new_string = content).
Proof.
  intros lines. pose proof (split_lines_no_LF content) as Hno.
  fold lines in Hno.
  assert (Hspl : 1 ≤ line_number ≤ Z.of_nat (length lines) →
    split_lines (McpTools.op_line content line_number new_string)
      = take (Z.to_nat (line_number - 1)) lines ++ split_lines new_string
        ++ drop (Z.to_nat line_number) lines).
  { intros Hr. unfold McpTools.op_line. fold lines.
    replace (0 <? line_number) with true by (symmetry; apply Z.ltb_lt; lia).
    replace (line_number <=? Z.of_nat (length lines)) with true
      by (symmetry; apply Z.leb_le; lia).
    cbn [andb]. rewrite insert_take_drop by lia.
    replace (S (Z.to_nat (line_number - 1))) with (Z.to_nat line_number) by lia.
    apply split_lines_spliced; [apply Forall_take | apply Forall_drop]; done. }
  split; [exact Hspl|]. split.
  - intros Hr Hnew. rewrite Hspl by exact Hr.
    rewrite split_lines_line by exact Hnew.
    rewrite insert_take_drop by lia.
    replace (S (Z.to_nat (line_number - 1))) with (Z.to_nat line_number) by lia.
    reflexivity.
  - intros Hout. unfold McpTools.op_line. fold lines.
    destruct Hout.
    + replace (0 <? line_number) with false by (symmetry; apply Z.ltb_ge; lia).
      reflexivity.
    + replace (line_number <=? Z.of_nat (length lines)) with false
        by (symmetry; apply Z.leb_gt; lia).
      rewrite andb_false_r. reflexivity.
Qed.

(** The second of three lines. *)
Lemma X16_line_replaces_one_line_witness :
  let content := [97; 10; 98; 10; 99] in
  1 ≤ 2 ≤ Z.of_nat (length (split_lines content)) ∧ (LF ∉ [120]) ∧
  split_lines (McpTools.op_line content 2 [120])
    = <[Z.to_nat (2 - 1) := [120]]> (split_lines content).
Proof.
  intros content.
  assert (Hr : 1 ≤ 2 ≤ Z.of_nat (length (split_lines content))) by (cbn; lia).
  assert (Hn : LF ∉ [120]) by (rewrite list_elem_of_singleton; done).
  split; [exact Hr|]. split; [exact Hn|].
  destruct (X16_line_replaces_one_line content [120] 2) as (_ & H & _).
  exact (H Hr Hn).
Defined.

Lemma op_insert_lines (content new_string : jsstring) (line_number : Z) :
  0 ≤ line_number ≤ Z.of_nat (length (split_lines content)) →
  split_lines (McpTools.op_insert content line_number new_string)
    = take (Z.to_nat line_number) (split_lines content)
      ++ split_lines new_string
      ++ drop (Z.to_nat line_number) (split_lines content).
Proof.
  intros Hr. pose proof (split_lines_no_LF content) as Hno.
  unfold McpTools.op_insert.
  replace (0 <=? line_number) with true by (symmetry; apply Z.leb_le; lia).
  replace (line_number <=? Z.of_nat (length (split_lines content))) with true
    by (symmetry; apply Z.leb_le; lia).
  cbn [andb].
  apply split_lines_spliced; [apply Forall_take | apply Forall_drop]; done.
Qed.

(** X17.  Inserting after a line: for a line number from 0 to the number
    of lines, the lines of the new text come after that many lines of the
    content, at the very beginning for 0, and no line is lost, so the
    number of lines grows by the number of lines of the text; for any
    other line number the content is left as it is. *)
Theorem X17_insert_after_line
    (content new_string : jsstring) (line_number : Z) :
  let lines := split_lines content in
  (0 ≤ line_number ≤ Z.of_nat (length lines) →
   split_lines (McpTools.op_insert content line_number new_string)
     = take (Z.to_nat line_number) lines ++ split_lines new_string
       ++ drop (Z.to_nat line_number) lines ∧
   length (split_lines (McpTools.op_insert content line_number new_string))
     = (length lines + length (split_lines new_string))%nat) ∧
  (line_number < 0 ∨ Z.of_nat (length lines) < line_number →
   McpTools.op_insert content line_number new_string = content).
Proof.
  intros lines. split.
  - intros Hr. rewrite op_insert_lines by exact Hr. split; [reflexivity|].
    fold lines. rewrite !length_app, length_take, length_drop. lia.
  - intros Hout. unfold McpTools.op_insert. fold lines. destruct Hout.
    + replace (0 <=? line_number) with false
        by (symmetry; apply Z.leb_gt; lia).
      reflexivity.
    + replace (line_number <=? Z.of_nat (length lines)) with false
        by (symmetry; apply Z.leb_gt; lia).
      rewrite andb_false_r. reflexivity.
Qed.

(** A line put before the first of two. *)
Lemma X17_insert_after_line_witness :
  let content := [97; 10; 98] in
  0 ≤ 0 ≤ Z.of_nat (length (split_lines content)) ∧
  split_lines (McpTools.op_insert content 0 [120])
    = [[120]; [97]; [98]].
Proof.
  intros content.
  assert (Hr : 0 ≤ 0 ≤ Z.of_nat (length (split_lines content))) by (cbn; lia).
  split; [exact Hr|].
  destruct (X17_insert_after_line content [120] 0) as (H & _).
  destruct (H Hr) as [Hl _]. exact Hl.
Defined.

Lemma sort_desc_two (u v : McpTools.Update) :
  McpTools.sort_desc [u; v] =
    if McpTools.key_lt (McpTools.line_number u) (McpTools.line_number v)
    then [v; u] else [u; v].
Proof. reflexivity. Qed.

(** X18.  Line numbers refer to the lines before any line operation of
    the call: two insertions of one line each, after lines [i] and [j]
    with [i < j], give the same content in either order of the list, the
    first text after [i] lines of the content and the second after [j]
    lines of it. *)
Theorem X18_inserts_use_original_numbers
    (regexp_valid : jsstring → bool)
    (regexp_test : jsstring → jsstring → jsstring → bool)
    (regexp_replace : jsstring → jsstring → jsstring → jsstring → jsstring)
    (string_replace : jsstring → jsstring → jsstring → jsstring)
    (content a b : jsstring) (i j : Z) :
  let lines := split_lines content in
  let first := McpTools.mkUpdate McpTools.Insert None a None (Some i)
                 false true in
  let second := McpTools.mkUpdate McpTools.Insert None b None (Some j)
                  false true in
  let result :=
    join_lines (take (Z.to_nat i) lines ++ [a]
                ++ take (Z.to_nat (j - i)) (drop (Z.to_nat i) lines)
                ++ [b] ++ drop (Z.to_nat j) lines) in
  0 ≤ i → i < j → j ≤ Z.of_nat (length lines) → LF ∉ a → LF ∉ b →
  McpTools.apply_updates regexp_valid regexp_test regexp_replace
    string_replace [first; second] content = Some result ∧
  McpTools.apply_updates regexp_valid regexp_test regexp_replace
    string_replace [second; first] content = Some result.
Proof.
  intros lines first second result Hi Hij Hj Ha Hb.
  assert (Hboth :
    McpTools.apply_line_ops [second; first] content = Some result).
  { cbn. pose proof (op_insert_lines content b j ltac:(fold lines; lia)) as Hs.
    fold lines in Hs. rewrite (split_lines_line b Hb) in Hs.
    pose proof (split_lines_no_LF content) as Hno. fold lines in Hno.
    unfold McpTools.op_insert at 1. rewrite Hs.
    replace (0 <=? i) with true by (symmetry; apply Z.leb_le; lia).
    replace (i <=? _) with true.
    2: { symmetry. apply Z.leb_le.
         rewrite !length_app, length_take, length_drop. cbn. lia. }
    cbn [andb]. f_equal. unfold result. f_equal.
    rewrite take_app_le by (rewrite length_take; lia).
    rewrite take_take. replace (Z.to_nat i `min` Z.to_nat j)%nat
      with (Z.to_nat i) by lia.
    f_equal. cbn [app]. f_equal.
    rewrite drop_app_le by (rewrite length_take; lia).
    f_equal. rewrite skipn_firstn_comm.
    replace (Z.to_nat j - Z.to_nat i)%nat with (Z.to_nat (j - i)) by lia.
    reflexivity. }
  unfold McpTools.apply_updates.
  assert (Ht : ∀ l, l = [first; second] ∨ l = [second; first] →
                    filter (λ u, McpTools.is_text_op u = true) l = []).
  { intros l [-> | ->]; reflexivity. }
  assert (Hl : ∀ l, l = [first; second] ∨ l = [second; first] →
                    filter (λ u, McpTools.is_line_op u = true) l = l).
  { intros l [-> | ->]; reflexivity. }
  rewrite !Ht, !Hl by auto. cbn [McpTools.apply_text_ops foldl mbind option_bind].
  rewrite !sort_desc_two. subst first second.
  cbn [McpTools.line_number McpTools.key_lt].
  replace (i <? j) with true by (symmetry; apply Z.ltb_lt; lia).
  replace (j <? i) with false by (symmetry; apply Z.ltb_ge; lia).
  split; exact Hboth.
Qed.

(** Two lines put into a content of three lines. *)
Lemma X18_inserts_use_original_numbers_witness :
  let content := [97; 10; 98; 10; 99] in
  let first := McpTools.mkUpdate McpTools.Insert None [120] None (Some 1)
                 false true in
  let second := McpTools.mkUpdate McpTools.Insert None [121] None (Some 2)
                  false true in
  0 ≤ 1 ∧ 1 < 2 ∧ 2 ≤ Z.of_nat (length (split_lines content)) ∧
  (LF ∉ [120]) ∧ (LF ∉ [121]) ∧
  McpTools.apply_updates (λ _, true) (λ _ _ _, false) (λ _ _ c _, c)
    (λ c _ _, c) [second; first] content
    = Some [97; 10; 120; 10; 98; 10; 121; 10; 99].
Proof.
  intros content first second.
  assert (H0 : 0 ≤ 1) by lia. assert (H1 : 1 < 2) by lia.
  assert (H2 : 2 ≤ Z.of_nat (length (split_lines content))) by (cbn; lia).
  assert (Ha : LF ∉ [120]) by (rewrite list_elem_of_singleton; done).
  assert (Hb : LF ∉ [121]) by (rewrite list_elem_of_singleton; done).
  repeat (split; [assumption|]).
  destruct (X18_inserts_use_original_numbers (λ _, true) (λ _ _ _, false)
              (λ _ _ c _, c) (λ c _ _, c) content [120] [121] 1 2
              H0 H1 H2 Ha Hb) as [_ H].
  exact H.
Defined.

(* ===================================================================== *)
(** * Facts about the handlers of the file server *)
(* ===================================================================== *)

Lemma bak_ne (file_path : jsstring) : McpTools.bak file_path ≠ file_path.
Proof.
  unfold McpTools.bak. intros H. apply (f_equal length) in H.
  rewrite length_app in H. cbn in H. lia.
Qed.

Lemma paginate_length_pos (content : jsstring) (maxTokensPerPage : Z) :
  (0 < length (paginateByTokens content maxTokensPerPage))%nat.
Proof.
  destruct (paginate_groups content maxTokensPerPage) as (gs & Hgs & _ & Hne).
  apply Forall2_length in Hgs. rewrite <- Hgs. destruct gs; [done | cbn; lia].
Qed.

Section ServerFacts.

Context {FS Json : Type}.
Variable readFile : jsstring → FS → McpTools.ReadOutcome.
Variable stat : jsstring → FS → option (nat * Z).
Variable writeFile : jsstring → jsstring → FS → option FS.
Variable appendFile : jsstring → jsstring → FS → option FS.
Variable access : jsstring → FS → bool.
Variable mkdir : jsstring → FS → option FS.
Variable dirname : jsstring → jsstring.
Variable JSON_stringify : Json → bool → jsstring.
Variable regexp_valid : jsstring → bool.
Variable regexp_test : jsstring → jsstring → jsstring → bool.
Variable regexp_replace : jsstring → jsstring → jsstring → jsstring → jsstring.
Variable string_replace : jsstring → jsstring → jsstring → jsstring.

Lemma read_file_ok (now : Z) (file_path content : jsstring) (page : Z)
    (sv : McpTools.Server) (st : nat * Z) :
  readFile file_path (McpTools.files sv) = McpTools.read_ok content →
  stat file_path (McpTools.files sv) = Some st →
  let pages := paginateByTokens content 10000 in
  let requestedPage := Z.max 1 (Z.min page (Z.of_nat (length pages))) in
  ∃ pageData,
    McpTools.read_file readFile stat now file_path page sv =
      (McpTools.read_page requestedPage (length pages) pageData,
       McpTools.mkServer (McpTools.files sv)
         (McpTools.markAsRead now file_path content)) ∧
    pages !! Z.to_nat (requestedPage - 1) = Some pageData ∧
    1 ≤ requestedPage ≤ Z.of_nat (length pages).
Proof.
  intros Hread Hstat pages requestedPage.
  pose proof (paginate_length_pos content 10000) as Hpos. fold pages in Hpos.
  assert (Hr : 1 ≤ requestedPage ≤ Z.of_nat (length pages))
    by (unfold requestedPage; lia).
  destruct (lookup_lt_is_Some_2 pages (Z.to_nat (requestedPage - 1)))
    as [pageData Hpage]; [lia|].
  exists pageData. unfold McpTools.read_file. rewrite Hread, Hstat.
  fold pages. replace (length pages =? 0)%nat with false
    by (symmetry; apply Nat.eqb_neq; lia).
  fold requestedPage. rewrite Hpage. done.
Qed.

Lemma update_file_cases (now : Z) (file_path : jsstring)
    (updates : list McpTools.Update) (create_backup dry_run : bool)
    (sv : McpTools.Server) :
  let out := McpTools.update_file readFile writeFile regexp_valid regexp_test
               regexp_replace string_replace now file_path updates
               create_backup dry_run sv in
  out.2 = sv ∨
  (dry_run = false ∧
   McpTools.isLastReadFile file_path (McpTools.tracker sv) = true ∧
   ∃ fs1,
     (fs1 = McpTools.files sv ∨
      ∃ original,
        readFile file_path (McpTools.files sv) = McpTools.read_ok original ∧
        create_backup = true ∧
        writeFile (McpTools.bak file_path) original (McpTools.files sv)
          = Some fs1) ∧
     ((out.1 = McpTools.update_error ∧
       out.2 = McpTools.mkServer fs1 (McpTools.tracker sv)) ∨
      ∃ content fs2 fileExists,
        writeFile file_path content fs1 = Some fs2 ∧
        out.1 = McpTools.update_done content fileExists false ∧
        out.2 = McpTools.mkServer fs2
                  (McpTools.markAsRead now file_path content))).
Proof.
  intros out. unfold out, McpTools.update_file.
  destruct (McpTools.isLastReadFile file_path (McpTools.tracker sv));
    cbn [negb]; [|left; done].
  destruct (readFile file_path (McpTools.files sv)) as [text| |] eqn:Hread;
    [| |left; done].
  - destruct (McpTools.apply_updates _ _ _ _ updates text) as [content|];
      [|left; done].
    destruct dry_run; [left; done|].
    destruct create_backup; cbn [andb].
    + destruct (writeFile (McpTools.bak file_path) text (McpTools.files sv))
        as [fs1|] eqn:Hb; [|left; done].
      right. split; [done|]. split; [done|]. exists fs1.
      split; [right; eauto|].
      destruct (writeFile file_path content fs1) as [fs2|] eqn:Hw;
        [right; eauto 10 | left; done].
    + right. split; [done|]. split; [done|]. exists (McpTools.files sv).
      split; [left; done|].
      destruct (writeFile file_path content (McpTools.files sv))
        as [fs2|] eqn:Hw; [right; eauto 10 | left; destruct sv; done].
  - destruct (McpTools.apply_updates _ _ _ _ updates []) as [content|];
      [|left; done].
    destruct dry_run; [left; done|]. rewrite andb_false_r.
    right. split; [done|]. split; [done|]. exists (McpTools.files sv).
    split; [left; done|].
    destruct (writeFile file_path content (McpTools.files sv))
      as [fs2|] eqn:Hw; [right; eauto 10 | left; destruct sv; done].
Qed.

Lemma update_file_blocked_inv (now : Z) (file_path : jsstring)
    (updates : list McpTools.Update) (create_backup dry_run : bool)
    (sv : McpTools.Server) :
  (McpTools.update_file readFile writeFile regexp_valid regexp_test
     regexp_replace string_replace now file_path updates create_backup
     dry_run sv).1 = McpTools.update_blocked →
  McpTools.isLastReadFile file_path (McpTools.tracker sv) = false.
Proof.
  unfold McpTools.update_file.
  destruct (McpTools.isLastReadFile file_path (McpTools.tracker sv));
    [|done].
  cbn [negb]. repeat case_match; cbn; intros [=].
Qed.

End ServerFacts.

(** X19.  [read_file] on a file that can be read always answers with a
    page: the requested page number is brought into the range from 1 to
    the number of pages, the answer is the page of that number, and the
    file becomes the last read file; the branch for an empty list of pages
    is never taken.  When the file cannot be read the answer is an error
    and the tracker is left as it was. *)
Theorem X19_read_file_page {FS : Type}
    (readFile : jsstring → FS → McpTools.ReadOutcome)
    (stat : jsstring → FS → option (nat * Z))
    (now : Z) (file_path : jsstring) (page : Z) (sv : McpTools.Server) :
  (∀ content st,
     readFile file_path (McpTools.files sv) = McpTools.read_ok content →
     stat file_path (McpTools.files sv) = Some st →
     let pages := paginateByTokens content 10000 in
     let requestedPage := Z.max 1 (Z.min page (Z.of_nat (length pages))) in
     ∃ pageData,
       McpTools.read_file readFile stat now file_path page sv =
         (McpTools.read_page requestedPage (length pages) pageData,
          McpTools.mkServer (McpTools.files sv)
            (McpTools.markAsRead now file_path content)) ∧
       pages !! Z.to_nat (requestedPage - 1) = Some pageData ∧
       1 ≤ requestedPage ≤ Z.of_nat (length pages)) ∧
  ((∀ content,
      readFile file_path (McpTools.files sv) ≠ McpTools.read_ok content) ∨
   stat file_path (McpTools.files sv) = None →
   McpTools.read_file readFile stat now file_path page sv
     = (McpTools.read_error, sv)) ∧
  (McpTools.read_file readFile stat now file_path page sv).1
    ≠ McpTools.read_empty.
Proof.
  split; [|split].
  - intros content st Hread Hstat. eapply read_file_ok; eauto.
  - unfold McpTools.read_file. intros [Hno|Hstat].
    + destruct (readFile file_path (McpTools.files sv)) as [c| |]; try done.
      destruct (Hno c). done.
    + rewrite Hstat.
      destruct (readFile file_path (McpTools.files sv)); done.
  - destruct (readFile file_path (McpTools.files sv)) as [content| |] eqn:Hr.
    + destruct (stat file_path (McpTools.files sv)) as [st|] eqn:Hs.
      * destruct (read_file_ok readFile stat now file_path content page sv st
                    Hr Hs) as (pageData & -> & _). done.
      * unfold McpTools.read_file. rewrite Hr, Hs. done.
    + unfold McpTools.read_file. rewrite Hr. done.
    + unfold McpTools.read_file. rewrite Hr. done.
Qed.

(** Page 7 of a file of one line. *)
Lemma X19_read_file_page_witness :
  let sv := McpTools.mkServer
              ({[ [97] := [104; 105] ]} : gmap jsstring jsstring)
              McpTools.clear in
  let stat := λ (_ : jsstring) (_ : gmap jsstring jsstring), Some (2%nat, 0) in
  McpTools.map_readFile [97] (McpTools.files sv) = McpTools.read_ok [104; 105] ∧
  McpTools.read_file McpTools.map_readFile stat 5 [97] 7 sv =
    (McpTools.read_page 1 1 (mkPage [104; 105] 1),
     McpTools.mkServer (McpTools.files sv)
       (McpTools.markAsRead 5 [97] [104; 105])).
Proof.
  intros sv stat.
  assert (Hr : McpTools.map_readFile [97] (McpTools.files sv)
               = McpTools.read_ok [104; 105]) by reflexivity.
  split; [exact Hr|].
  destruct (X19_read_file_page McpTools.map_readFile stat 5 [97] 7 sv)
    as (H & _).
  destruct (H [104; 105] (2%nat, 0) Hr eq_refl) as (pageData & Hrun & Hp & _).
  cbn in Hp. injection Hp as <-. exact Hrun.
Defined.

(** X20.  What [update_file] can touch.  When the target is not the last
    read file the call is refused and nothing changes; a dry run changes
    nothing; in a file system where a write leaves the other files as
    they read, no file but the target and its [.bak] copy reads
    differently after the call; and the tracker either stays as it was or,
    when the update was written, names the target with its new content. *)
Theorem X20_update_file_guard {FS : Type}
    (readFile : jsstring → FS → McpTools.ReadOutcome)
    (writeFile : jsstring → jsstring → FS → option FS)
    (regexp_valid : jsstring → bool)
    (regexp_test : jsstring → jsstring → jsstring → bool)
    (regexp_replace : jsstring → jsstring → jsstring → jsstring → jsstring)
    (string_replace : jsstring → jsstring → jsstring → jsstring)
    (now : Z) (file_path : jsstring) (updates : list McpTools.Update)
    (create_backup dry_run : bool) (sv : McpTools.Server) :
  (∀ p text fs fs' q,
     writeFile p text fs = Some fs' → q ≠ p →
     readFile q fs' = readFile q fs) →
  let out := McpTools.update_file readFile writeFile regexp_valid regexp_test
               regexp_replace string_replace now file_path updates
               create_backup dry_run sv in
  (McpTools.lastReadFile (McpTools.tracker sv) ≠ Some file_path →
   out = (McpTools.update_blocked, sv)) ∧
  (dry_run = true → out.2 = sv) ∧
  (∀ q, q ≠ file_path → q ≠ McpTools.bak file_path →
        readFile q (McpTools.files out.2) = readFile q (McpTools.files sv)) ∧
  (McpTools.tracker out.2 = McpTools.tracker sv ∨
   ∃ content fileExists,
     out.1 = McpTools.update_done content fileExists false ∧
     McpTools.tracker out.2 = McpTools.markAsRead now file_path content).
Proof.
  intros Hframe out.
  pose proof (update_file_cases readFile writeFile regexp_valid regexp_test
                regexp_replace string_replace now file_path updates
                create_backup dry_run sv) as Hcases.
  cbv zeta in Hcases. fold out in Hcases.
  split; [|split; [|split]].
  - intros Hlast. unfold out, McpTools.update_file, McpTools.isLastReadFile.
    rewrite bool_decide_eq_false_2 by exact Hlast. done.
  - intros ->. destruct Hcases as [H|(H & _)]; done.
  - intros q Hq Hqb.
    destruct Hcases as [->|(_ & _ & fs1 & Hfs1 & Hout)]; [done|].
    assert (readFile q fs1 = readFile q (McpTools.files sv)) as Hq1.
    { destruct Hfs1 as [->|(original & _ & _ & Hw)]; [done|].
      eapply Hframe; eauto. }
    destruct Hout as [[_ ->]|(content & fs2 & e & Hw & _ & ->)]; cbn.
    + exact Hq1.
    + rewrite <- Hq1. eapply Hframe; eauto.
  - destruct Hcases as [->|(_ & _ & fs1 & _ & Hout)]; [left; done|].
    destruct Hout as [[_ ->]|(content & fs2 & e & _ & H1 & ->)];
      [left; done | right; eauto].
Qed.

(** An update of a file that was not read. *)
Lemma X20_update_file_guard_witness :
  let sv := McpTools.mkServer
              ({[ [97] := [104; 105] ]} : gmap jsstring jsstring)
              (McpTools.markAsRead 1 [98] []) in
  let u := McpTools.mkUpdate McpTools.Append None [33] None None false true in
  (∀ p text (fs fs' : gmap jsstring jsstring) q,
     McpTools.map_writeFile p text fs = Some fs' → q ≠ p →
     McpTools.map_readFile q fs' = McpTools.map_readFile q fs) ∧
  McpTools.update_file McpTools.map_readFile McpTools.map_writeFile
    (λ _, true) (λ _ _ _, false) (λ _ _ c _, c) (λ c _ _, c)
    2 [97] [u] true false sv = (McpTools.update_blocked, sv).
Proof.
  intros sv u.
  assert (Hframe : ∀ p text (fs fs' : gmap jsstring jsstring) q,
     McpTools.map_writeFile p text fs = Some fs' → q ≠ p →
     McpTools.map_readFile q fs' = McpTools.map_readFile q fs).
  { intros p text fs fs' q [= <-] Hq. unfold McpTools.map_readFile.
    rewrite lookup_insert_ne by done. reflexivity. }
  split; [exact Hframe|].
  destruct (X20_update_file_guard McpTools.map_readFile McpTools.map_writeFile
              (λ _, true) (λ _ _ _, false) (λ _ _ c _, c) (λ c _ _, c)
              2 [97] [u] true false sv Hframe) as (H & _).
  apply H. cbn. intros [=].
Defined.

(** X21.  Read, then update.  In a file system that reads back what was
    written and leaves the other files alone: once [read_file] has read a
    file, an [update_file] on it with a backup, whose operations and
    writes succeed, is accepted; afterwards the file reads as the updated
    content and its [.bak] copy as the content before; the file is still
    the last read file, so a further update of it is not refused, while an
    update of any other file is. *)
Theorem X21_read_then_update {FS : Type}
    (readFile : jsstring → FS → McpTools.ReadOutcome)
    (stat : jsstring → FS → option (nat * Z))
    (writeFile : jsstring → jsstring → FS → option FS)
    (regexp_valid : jsstring → bool)
    (regexp_test : jsstring → jsstring → jsstring → bool)
    (regexp_replace : jsstring → jsstring → jsstring → jsstring → jsstring)
    (string_replace : jsstring → jsstring → jsstring → jsstring)
    (t1 t2 page : Z) (file_path original content : jsstring)
    (updates : list McpTools.Update) (st : nat * Z)
    (sv : McpTools.Server) (fs1 fs2 : FS) :
  let update_file :=
    McpTools.update_file readFile writeFile regexp_valid regexp_test
      regexp_replace string_replace in
  (∀ p text fs fs', writeFile p text fs = Some fs' →
                    readFile p fs' = McpTools.read_ok text) →
  (∀ p text fs fs' q, writeFile p text fs = Some fs' → q ≠ p →
                      readFile q fs' = readFile q fs) →
  readFile file_path (McpTools.files sv) = McpTools.read_ok original →
  stat file_path (McpTools.files sv) = Some st →
  McpTools.apply_updates regexp_valid regexp_test regexp_replace
    string_replace updates original = Some content →
  writeFile (McpTools.bak file_path) original (McpTools.files sv) = Some fs1 →
  writeFile file_path content fs1 = Some fs2 →
  let sv1 := (McpTools.read_file readFile stat t1 file_path page sv).2 in
  let sv2 := McpTools.mkServer fs2
               (McpTools.markAsRead t2 file_path content) in
  update_file t2 file_path updates true false sv1
    = (McpTools.update_done content true false, sv2) ∧
  readFile file_path fs2 = McpTools.read_ok content ∧
  readFile (McpTools.bak file_path) fs2 = McpTools.read_ok original ∧
  (∀ t3 updates' backup dry,
     (update_file t3 file_path updates' backup dry sv2).1
       ≠ McpTools.update_blocked) ∧
  (∀ t3 other updates' backup dry, other ≠ file_path →
     update_file t3 other updates' backup dry sv2
       = (McpTools.update_blocked, sv2)).
Proof.
  intros update_file Hback Hframe Hread Hstat Hupd Hbak Hwrite sv1 sv2.
  destruct (read_file_ok readFile stat t1 file_path original page sv st
              Hread Hstat) as (pageData & Hrf & _).
  assert (Hsv1 : sv1 = McpTools.mkServer (McpTools.files sv)
                         (McpTools.markAsRead t1 file_path original))
    by (unfold sv1; rewrite Hrf; reflexivity).
  assert (Hlast : ∀ t c, McpTools.isLastReadFile file_path
                           (McpTools.markAsRead t file_path c) = true).
  { intros t c. unfold McpTools.isLastReadFile. cbn.
    apply bool_decide_eq_true. done. }
  split; [|split; [|split; [|split]]].
  - rewrite Hsv1. unfold update_file, McpTools.update_file.
    cbn [McpTools.tracker McpTools.files]. rewrite Hlast. cbn [negb].
    rewrite Hread, Hupd. cbn [andb]. rewrite Hbak, Hwrite. reflexivity.
  - eapply Hback, Hwrite.
  - rewrite (Hframe _ _ _ _ (McpTools.bak file_path) Hwrite)
      by apply bak_ne.
    eapply Hback, Hbak.
  - intros t3 updates' backup dry Hblocked.
    apply update_file_blocked_inv in Hblocked.
    unfold sv2 in Hblocked. cbn [McpTools.tracker] in Hblocked.
    rewrite Hlast in Hblocked. done.
  - intros t3 other updates' backup dry Hne.
    unfold update_file, McpTools.update_file, McpTools.isLastReadFile.
    rewrite bool_decide_eq_false_2; [done|].
    cbn. intros [= ->]. done.
Qed.

(** A text appended to a file that was read. *)
Lemma X21_read_then_update_witness :
  let fs0 : gmap jsstring jsstring := {[ [97] := [104; 105] ]} in
  let sv := McpTools.mkServer fs0 McpTools.clear in
  let stat := λ (_ : jsstring) (_ : gmap jsstring jsstring), Some (2%nat, 0) in
  let u := McpTools.mkUpdate McpTools.Append None [33] None None false true in
  let content := [104; 105; 10; 33] in
  let fs1 := <[McpTools.bak [97] := [104; 105]]> fs0 in
  let fs2 := <[[97] := content]> fs1 in
  let update_file :=
    McpTools.update_file McpTools.map_readFile McpTools.map_writeFile
      (λ _, true) (λ _ _ _, false) (λ _ _ c _, c) (λ c _ _, c) in
  McpTools.map_readFile [97] fs0 = McpTools.read_ok [104; 105] ∧
  McpTools.apply_updates (λ _, true) (λ _ _ _, false) (λ _ _ c _, c)
    (λ c _ _, c) [u] [104; 105] = Some content ∧
  update_file 9 [97] [u] true false
    (McpTools.read_file McpTools.map_readFile stat 5 [97] 1 sv).2
    = (McpTools.update_done content true false,
       McpTools.mkServer fs2 (McpTools.markAsRead 9 [97] content)) ∧
  McpTools.map_readFile (McpTools.bak [97]) fs2 = McpTools.read_ok [104; 105].
Proof.
  intros fs0 sv stat u content fs1 fs2 update_file.
  assert (Hback : ∀ p text (fs fs' : gmap jsstring jsstring),
            McpTools.map_writeFile p text fs = Some fs' →
            McpTools.map_readFile p fs' = McpTools.read_ok text).
  { intros p text fs fs' [= <-]. unfold McpTools.map_readFile.
    rewrite lookup_insert_eq. reflexivity. }
  assert (Hframe : ∀ p text (fs fs' : gmap jsstring jsstring) q,
            McpTools.map_writeFile p text fs = Some fs' → q ≠ p →
            McpTools.map_readFile q fs' = McpTools.map_readFile q fs).
  { intros p text fs fs' q [= <-] Hq. unfold McpTools.map_readFile.
    rewrite lookup_insert_ne by done. reflexivity. }
  assert (Hread : McpTools.map_readFile [97] (McpTools.files sv)
                  = McpTools.read_ok [104; 105]) by reflexivity.
  assert (Hupd : McpTools.apply_updates (λ _, true) (λ _ _ _, false)
                   (λ _ _ c _, c) (λ c _ _, c) [u] [104; 105] = Some content)
    by reflexivity.
  destruct (X21_read_then_update McpTools.map_readFile stat
              McpTools.map_writeFile (λ _, true) (λ _ _ _, false)
              (λ _ _ c _, c) (λ c _ _, c) 5 9 1 [97] [104; 105] content [u]
              (2%nat, 0) sv fs1 fs2 Hback Hframe Hread eq_refl Hupd
              eq_refl eq_refl) as (Hrun & _ & Hb & _).
  split; [exact Hread|]. split; [exact Hupd|]. split; [exact Hrun | exact Hb].
Defined.



(* ===================================================================== *)
(** * Facts about the chat settings endpoint *)
(* ===================================================================== *)

Lemma select_own_Some (id uid : string) (db : ChatSettingsRoute.ChatTable)
    (row : ChatSettingsRoute.ChatRow) :
  ChatSettingsRoute.select_own id uid db = Some row ↔
  db !! id = Some row ∧ ChatSettingsRoute.userId row = uid.
Proof.
  unfold ChatSettingsRoute.select_own.
  destruct (db !! id) as [r|]; cbn; [|split; [done | intros [[=] _]]].
  destruct (String.eqb_spec (ChatSettingsRoute.userId r) uid); split.
  - intros [= ->]. done.
  - intros [[= ->] _]. done.
  - done.
  - intros [[= ->] ?]. done.
Qed.

Lemma trim_or_null_not_empty (trim : string → string) (value : Value)
    (stored : option string) :
  ChatSettingsRoute.trim_or_null trim value = Some stored →
  stored ≠ Some "" ∧
  (∀ text, value = Some (JString text) →
           stored = if String.eqb (trim text) "" then None
                    else Some (trim text)) ∧
  (value = None ∨ value = Some JNull → stored = None).
Proof.
  unfold ChatSettingsRoute.trim_or_null.
  destruct value as [[| | |text| |]|]; try done.
  - intros [= <-]. split; [done|]. split; [intros ? [=] | done].
  - intros [= <-]. split; [|split].
    + destruct (String.eqb_spec (trim text) ""); [done | congruence].
    + intros ? [= ->]. done.
    + intros [|]; done.
  - intros [= <-]. split; [done|]. split; [intros ? [=] | done].
Qed.

Lemma POST_settings_cases (trim : string → string)
    (set_model : Value → Json → Json)
    (session : option AuthSession) (id : string) (request : NextRequest)
    (db : ChatSettingsRoute.ChatTable) :
  let out := ChatSettingsRoute.POST trim set_model session id request db in
  (out.2 = db ∧ status out.1 ≠ 200%nat) ∨
  ∃ uid body model' fields row values,
    user_id session = Some uid ∧ json request = Some body ∧
    ChatSettingsRoute.destructure_settings body = Some (model', fields) ∧
    db !! id = Some row ∧ ChatSettingsRoute.userId row = uid ∧
    ChatSettingsRoute.set_values trim fields = Some values ∧
    out = (respond ChatSettingsRoute.settings_updated,
           <[id := ChatSettingsRoute.mkChatRow uid
                     (set_model model' (ChatSettingsRoute.model row)) values]>
             db).
Proof.
  intros out. unfold out, ChatSettingsRoute.POST, ChatSettingsRoute.POST_try.
  destruct (user_id session) as [uid|] eqn:Hu; [|left; done].
  destruct (json request) as [body|]; [|left; done]. cbn.
  destruct (ChatSettingsRoute.destructure_settings body) as [[model' fields]|]
    eqn:Hd; [|left; done]. cbn.
  destruct (ChatSettingsRoute.select_own id uid db) as [row|] eqn:Hs;
    [|left; done].
  apply select_own_Some in Hs as [Hrow Hown].
  destruct (ChatSettingsRoute.set_values trim fields) as [values|] eqn:Hv;
    [|left; done].
  right. exists uid, body, model', fields, row, values. cbn.
  unfold ChatSettingsRoute.update_settings. rewrite Hrow, Hown. done.
Qed.

(** X23.  Who can change the settings of a chat.  [POST] changes the
    table only for a signed-in user who owns the chat of the given id, and
    then answers 200; whatever the request, every other chat stays as it
    is, no chat is created, and the chat keeps its owner.  Any answer
    other than 200 leaves the table as it was. *)
Theorem X23_settings_only_by_owner (trim : string → string)
    (set_model : Value → Json → Json)
    (session : option AuthSession) (id : string) (request : NextRequest)
    (db : ChatSettingsRoute.ChatTable) :
  let out := ChatSettingsRoute.POST trim set_model session id request db in
  (status out.1 = 200%nat ∨ out.2 ≠ db →
   status out.1 = 200%nat ∧
   ∃ uid row, user_id session = Some uid ∧ db !! id = Some row ∧
              ChatSettingsRoute.userId row = uid) ∧
  (∀ other, other ≠ id → out.2 !! other = db !! other) ∧
  (∀ row', out.2 !! id = Some row' →
     ∃ row, db !! id = Some row ∧
            ChatSettingsRoute.userId row' = ChatSettingsRoute.userId row).
Proof.
  intros out.
  destruct (POST_settings_cases trim set_model session id request db)
    as [[Hdb Hst]|(uid & body & model' & fields & row & values & Hu & _ & _
                   & Hrow & Hown & _ & Hout)]; fold out in Hdb, Hst || fold out in Hout.
  - split; [intros [?|?]; done|]. split.
    + intros other _. rewrite Hdb. done.
    + intros row' Hr. rewrite Hdb in Hr. eauto.
  - rewrite Hout. cbn. split; [eauto 10|]. split.
    + intros other Hne. rewrite lookup_insert_ne; done.
    + intros row'. rewrite lookup_insert_eq. intros [= <-]. cbn. eauto.
Qed.

(** X24.  What is stored.  After a [POST] answered with 200, each of the
    eight text settings of the chat is [null] or a non-empty string: a
    string of the body is stored trimmed, and a string that is blank after
    trimming, a [null] and a missing field are stored as [null]. *)
Theorem X24_settings_stored_trimmed (trim : string → string)
    (set_model : Value → Json → Json)
    (session : option AuthSession) (id : string) (request : NextRequest)
    (db : ChatSettingsRoute.ChatTable) :
  let out := ChatSettingsRoute.POST trim set_model session id request db in
  status out.1 = 200%nat →
  ∃ body model' fields old new,
    json request = Some body ∧
    ChatSettingsRoute.destructure_settings body = Some (model', fields) ∧
    db !! id = Some old ∧ out.2 !! id = Some new ∧
    Forall2
      (λ value stored,
         stored ≠ Some "" ∧
         (∀ text, value = Some (JString text) →
                  stored = if String.eqb (trim text) "" then None
                           else Some (trim text)) ∧
         (value = None ∨ value = Some JNull → stored = None))
      (ChatSettingsRoute.settings_list fields)
      (ChatSettingsRoute.settings_list (ChatSettingsRoute.settings new)).
Proof.
  intros out Hst.
  destruct (POST_settings_cases trim set_model session id request db)
    as [[_ Hne]|(uid & body & model' & fields & row & values & Hu & Hj & Hd
                 & Hrow & Hown & Hv & Hout)]; [done|].
  fold out in Hout. exists body, model', fields, row.
  eexists. rewrite Hout. cbn. rewrite lookup_insert_eq.
  repeat (split; [done|]). cbn.
  unfold ChatSettingsRoute.set_values in Hv.
  repeat match type of Hv with
         | context [ChatSettingsRoute.trim_or_null trim ?v] =>
             let H := fresh "Ht" in
             destruct (ChatSettingsRoute.trim_or_null trim v) eqn:H;
             [apply trim_or_null_not_empty in H; cbn in Hv | done]
         end.
  injection Hv as <-. cbn.
  repeat (apply Forall2_cons_2; [assumption|]). apply Forall2_nil_2.
Qed.

(** Settings sent with blanks around and one left blank. *)
Lemma X24_settings_stored_trimmed_witness :
  let trim := λ s : string, if String.eqb s " 0.7 " then "0.7"
                            else if String.eqb s "  " then "" else s in
  let session := Some (mkAuthSession (Some (mkUser (Some "alice")))) in
  let none := ChatSettingsRoute.mkTextSettings None None None None None None
                None None in
  let db : ChatSettingsRoute.ChatTable :=
    {[ "c1" := ChatSettingsRoute.mkChatRow "alice" (JString "m") none ]} in
  let body := JObject [("temperature", JString " 0.7 ");
                       ("seed", JString "  ")] in
  let out := ChatSettingsRoute.POST trim (λ v old, default old v) session
               "c1" (mkRequest (Some body)) db in
  status out.1 = 200%nat ∧
  out.2 !! "c1" =
    Some (ChatSettingsRoute.mkChatRow "alice" (JString "m")
            (ChatSettingsRoute.mkTextSettings None (Some "0.7") None None
               None None None None)).
Proof.
  intros trim session none db body out.
  assert (Hst : status out.1 = 200%nat) by reflexivity.
  split; [exact Hst|].
  destruct (X24_settings_stored_trimmed trim (λ v old, default old v) session
              "c1" (mkRequest (Some body)) db Hst)
    as (b & m & f & old & new & _ & _ & _ & Hnew & _).
  fold out in Hnew. rewrite Hnew. f_equal.
  assert (out.2 !! "c1" = Some (ChatSettingsRoute.mkChatRow "alice"
            (JString "m") (ChatSettingsRoute.mkTextSettings None (Some "0.7")
               None None None None None None))) as Hc by reflexivity.
  rewrite Hc in Hnew. injection Hnew as <-. reflexivity.
Defined.

Lemma set_values_wrong_type (trim : string → string)
    (fields : ChatSettingsRoute.TextSettings Value) :
  Exists (λ value, ∃ j, value = Some j ∧ j ≠ JNull ∧ ∀ text, j ≠ JString text)
    (ChatSettingsRoute.settings_list fields) →
  ChatSettingsRoute.set_values trim fields = None.
Proof.
  assert (Hbad : ∀ value,
    (∃ j, value = Some j ∧ j ≠ JNull ∧ ∀ text, j ≠ JString text) →
    ChatSettingsRoute.trim_or_null trim value = None).
  { intros value (j & -> & Hn & Hs). destruct j; try done.
    destruct (Hs s). done. }
  unfold ChatSettingsRoute.settings_list, ChatSettingsRoute.set_values.
  rewrite !Exists_cons, Exists_nil.
  intros H.
  repeat (destruct H as [H|H];
          [rewrite (Hbad _ H);
           repeat (destruct (ChatSettingsRoute.trim_or_null trim _); cbn;
                   try reflexivity)|]).
  done.
Qed.

(** X25.  A setting of the wrong type is not stored: when one of the
    eight text settings of the body is a number, a boolean, an array or an
    object, the call of [trim] on it throws, so the table stays as it is
    and the answer is not 200; for the owner of the chat it is 500. *)
Theorem X25_settings_wrong_type_refused (trim : string → string)
    (set_model : Value → Json → Json)
    (session : option AuthSession) (id : string) (request : NextRequest)
    (db : ChatSettingsRoute.ChatTable) (body : Json) (model' : Value)
    (fields : ChatSettingsRoute.TextSettings Value) :
  json request = Some body →
  ChatSettingsRoute.destructure_settings body = Some (model', fields) →
  Exists (λ value, ∃ j, value = Some j ∧ j ≠ JNull ∧ ∀ text, j ≠ JString text)
    (ChatSettingsRoute.settings_list fields) →
  let out := ChatSettingsRoute.POST trim set_model session id request db in
  out.2 = db ∧ status out.1 ≠ 200%nat ∧
  (∀ uid row, user_id session = Some uid → db !! id = Some row →
              ChatSettingsRoute.userId row = uid → status out.1 = 500%nat).
Proof.
  intros Hj Hd Hbad out.
  pose proof (set_values_wrong_type trim fields Hbad) as Hnone.
  unfold out, ChatSettingsRoute.POST, ChatSettingsRoute.POST_try.
  rewrite Hj. cbn. rewrite Hd. cbn. rewrite Hnone.
  destruct (user_id session) as [uid|]; [|done].
  destruct (ChatSettingsRoute.select_own id uid db) as [row|] eqn:Hs.
  - cbn. done.
  - cbn. split; [done|]. split; [done|].
    intros uid' row [= <-] Hrow Hown.
    assert (ChatSettingsRoute.select_own id uid db = Some row) as Hs'
      by (apply select_own_Some; done).
    congruence.
Qed.

(** A temperature sent as a number. *)
Lemma X25_settings_wrong_type_refused_witness :
  let session := Some (mkAuthSession (Some (mkUser (Some "alice")))) in
  let none := ChatSettingsRoute.mkTextSettings None None None None None None
                None None in
  let db : ChatSettingsRoute.ChatTable :=
    {[ "c1" := ChatSettingsRoute.mkChatRow "alice" (JString "m") none ]} in
  let body := JObject [("temperature", JNumber 1%float)] in
  let request := mkRequest (Some body) in
  let out := ChatSettingsRoute.POST (λ s, s) (λ v old, default old v) session
               "c1" request db in
  json request = Some body ∧ out.2 = db ∧ status out.1 = 500%nat.
Proof.
  intros session none db body request out.
  assert (Hj : json request = Some body) by reflexivity.
  split; [exact Hj|].
  destruct (X25_settings_wrong_type_refused (λ s, s) (λ v old, default old v)
              session "c1" request db
              body None
              (ChatSettingsRoute.mkTextSettings None
                 (Some (JNumber 1%float)) None None None None None None)
              Hj eq_refl) as (Hdb & _ & H500).
  - right. left. exists (JNumber 1%float). done.
  - split; [exact Hdb|].
    apply (H500 "alice" (ChatSettingsRoute.mkChatRow "alice" (JString "m") none));
      reflexivity.
Defined.

(** X26.  Settings that were stored are read back: after a [POST]
    answered with 200, [GET] for the same user and chat answers 200 with
    the row as stored, and [GET] for a signed-in user who does not own the
    chat answers 404. *)
Theorem X26_settings_post_then_get (trim : string → string)
    (set_model : Value → Json → Json)
    (session : option AuthSession) (id : string) (request : NextRequest)
    (db : ChatSettingsRoute.ChatTable) :
  let out := ChatSettingsRoute.POST trim set_model session id request db in
  status out.1 = 200%nat →
  ∃ owner new,
    user_id session = Some owner ∧ out.2 !! id = Some new ∧
    ChatSettingsRoute.GET session id out.2
      = respond (ChatSettingsRoute.settings_json new) ∧
    ∀ other uid, user_id other = Some uid → uid ≠ owner →
      ChatSettingsRoute.GET other id out.2
        = respond_error "Chat not found" 404.
Proof.
  intros out Hst.
  destruct (POST_settings_cases trim set_model session id request db)
    as [[_ Hne]|(uid & body & model' & fields & row & values & Hu & Hj & Hd
                 & Hrow & Hown & Hv & Hout)]; [done|].
  fold out in Hout. rewrite Hout. cbn [snd].
  eexists uid, _. split; [exact Hu|]. split; [apply lookup_insert_eq|].
  unfold ChatSettingsRoute.GET. split.
  - rewrite Hu. unfold ChatSettingsRoute.select_own.
    rewrite lookup_insert_eq. cbn. rewrite String.eqb_refl. reflexivity.
  - intros other uid' Ho Hne'. rewrite Ho.
    unfold ChatSettingsRoute.select_own. rewrite lookup_insert_eq. cbn.
    destruct (String.eqb_spec uid uid'); [congruence | reflexivity].
Qed.

(** A model stored and read back. *)
Lemma X26_settings_post_then_get_witness :
  let session := Some (mkAuthSession (Some (mkUser (Some "alice")))) in
  let none := ChatSettingsRoute.mkTextSettings None None None None None None
                None None in
  let db : ChatSettingsRoute.ChatTable :=
    {[ "c1" := ChatSettingsRoute.mkChatRow "alice" JNull none ]} in
  let body := JObject [("model", JString "m2")] in
  let out := ChatSettingsRoute.POST (λ s, s) (λ v old, default old v) session
               "c1" (mkRequest (Some body)) db in
  status out.1 = 200%nat ∧
  ChatSettingsRoute.GET session "c1" out.2
    = respond (ChatSettingsRoute.settings_json
                 (ChatSettingsRoute.mkChatRow "alice" (JString "m2") none)).
Proof.
  intros session none db body out.
  assert (Hst : status out.1 = 200%nat) by reflexivity.
  split; [exact Hst|].
  destruct (X26_settings_post_then_get (λ s, s) (λ v old, default old v)
              session "c1" (mkRequest (Some body)) db Hst)
    as (owner & new & _ & Hnew & Hget & _).
  fold out in Hnew, Hget. rewrite Hget. f_equal. f_equal.
  assert (out.2 !! "c1" = Some (ChatSettingsRoute.mkChatRow "alice"
                                  (JString "m2") none)) as Hc by reflexivity.
  rewrite Hc in Hnew. injection Hnew as <-. reflexivity.
Defined.

(* ===================================================================== *)
(** * Facts about saving and reading back provider configurations *)
(* ===================================================================== *)

(** X27.  Save, then list.  With the queries of [lib/providers.ts] behind
    both handlers: after a [POST] by a signed-in user of a complete body
    whose [apiKey] is a string, [GET] by the same user answers with rows
    among which the one for the posted provider holds the posted key, and
    every row of the answer belongs to that user; [GET] by another
    signed-in user answers with rows none of which belongs to the
    first. *)
Theorem X27_post_then_get
    (scan : Table → list ((string * ProviderType) * ProviderConfigRow))
    (now : Z) (uuid uid key : string) (session : option AuthSession)
    (body : Json) (db : Table) :
  (∀ m : Table, scan m ≡ₚ map_to_list m) →
  user_id session = Some uid → complete body = true →
  property "apiKey" body = Some (JString key) →
  let save := saveProviderConfig now uuid in
  let getAll := λ u t, Some (getAllProviderConfigs scan u t) in
  let db' := (POST save session (mkRequest (Some body)) db).2 in
  ∃ p row configs,
    as_ProviderType (property "provider" body) = Some p ∧
    ProviderConfigGet.GET getAll session db'
      = ProviderConfigGet.get_configs configs ∧
    ((uid, p), row) ∈ configs ∧ apiKey row = Some (JString key) ∧
    key ≠ "" ∧
    (∀ k r, (k, r) ∈ configs → k.1 = uid) ∧
    ∀ other v, user_id other = Some v → v ≠ uid →
      ∃ configs', ProviderConfigGet.GET getAll other db'
                    = ProviderConfigGet.get_configs configs' ∧
                  ∀ k r, (k, r) ∈ configs' → k.1 ≠ uid.
Proof.
  intros Hscan Hu Hc Hkey' save getAll db'.
  assert (Hkne : key ≠ "").
  { intros ->. unfold complete in Hc. rewrite Hkey' in Hc. cbn in Hc.
    rewrite andb_false_r in Hc. done. }
  destruct (POST_complete save session (mkRequest (Some body)) db uid body
              Hu eq_refl Hc) as (p & Hp & HP).
  unfold save at 2, saveProviderConfig in HP. fold db' in HP.
  assert (Hdb' : saveProviderConfig now uuid uid p (property "apiKey" body) db
                 = Some db').
  { unfold db'. rewrite HP. reflexivity. }
  destruct (save_lookup _ _ _ _ _ _ _ Hdb') as [(row & Hrow & Hkey & _) _].
  assert (Hin : ∀ u k r, (k, r) ∈ getAllProviderConfigs scan u db' ↔
                         k.1 = u ∧ db' !! k = Some r).
  { intros u k r. unfold getAllProviderConfigs.
    rewrite (elem_of_scan scan Hscan), select_where_lookup. cbn.
    rewrite bool_decide_eq_true. tauto. }
  exists p, row, (getAllProviderConfigs scan uid db').
  split; [exact Hp|]. split.
  { unfold ProviderConfigGet.GET. rewrite Hu. reflexivity. }
  split; [apply Hin; done|]. split; [rewrite Hkey; exact Hkey'|].
  split; [exact Hkne|]. split.
  - intros k r Hk. apply Hin in Hk as [? _]. done.
  - intros other v Hv Hne. exists (getAllProviderConfigs scan v db'). split.
    + unfold ProviderConfigGet.GET. rewrite Hv. reflexivity.
    + intros k r Hk. apply Hin in Hk as [-> _]. done.
Qed.

(** A key saved by one user and the list of another. *)
Lemma X27_post_then_get_witness :
  let session := Some (mkAuthSession (Some (mkUser (Some "alice")))) in
  let body :=
    JObject [("provider", JString "deepinfra"); ("apiKey", JString "k")] in
  let save := saveProviderConfig 7 "r1" in
  let getAll := λ u (t : Table), Some (getAllProviderConfigs map_to_list u t) in
  let db' := (POST save session (mkRequest (Some body)) (∅ : Table)).2 in
  (∀ m : Table, map_to_list m ≡ₚ map_to_list m) ∧
  user_id session = Some "alice" ∧ complete body = true ∧
  property "apiKey" body = Some (JString "k") ∧
  ∃ p row configs,
    as_ProviderType (property "provider" body) = Some p ∧
    ProviderConfigGet.GET getAll session db'
      = ProviderConfigGet.get_configs configs ∧
    (("alice", p), row) ∈ configs ∧ apiKey row = Some (JString "k") ∧
    "k" ≠ "" ∧
    (∀ k r, (k, r) ∈ configs → k.1 = "alice") ∧
    ∀ other v, user_id other = Some v → v ≠ "alice" →
      ∃ configs', ProviderConfigGet.GET getAll other db'
                    = ProviderConfigGet.get_configs configs' ∧
                  ∀ k r, (k, r) ∈ configs' → k.1 ≠ "alice".
Proof.
  intros session body save getAll db'.
  assert (Hscan : ∀ m : Table, map_to_list m ≡ₚ map_to_list m)
    by (intros m; reflexivity).
  assert (Hu : user_id session = Some "alice") by reflexivity.
  assert (Hc : complete body = true) by reflexivity.
  assert (Hk : property "apiKey" body = Some (JString "k")) by reflexivity.
  split; [exact Hscan|]. split; [exact Hu|]. split; [exact Hc|].
  split; [exact Hk|].
  exact (X27_post_then_get map_to_list 7 "r1" "alice" "k" session body ∅
           Hscan Hu Hc Hk).
Defined.

(* ===================================================================== *)
(** * Facts about replacing every occurrence of a text *)
(* ===================================================================== *)

Lemma starts_with_app (pat s : jsstring) :
  McpTools.starts_with pat s = true ↔ ∃ rest, s = pat ++ rest.
Proof.
  revert s. induction pat as [|a pat IH]; intros s; cbn.
  - split; [intros _; exists s; reflexivity | done].
  - destruct s as [|b s]; [split; [done | intros [rest [=]]]|].
    rewrite andb_true_iff, IH, Z.eqb_eq. split.
    + intros [-> [rest ->]]. exists rest. reflexivity.
    + intros [rest [= -> ->]]. eauto.
Qed.

Lemma split_go_nonempty (sep s : jsstring) (skip : nat) (piece : jsstring) :
  McpTools.split_go sep s skip piece ≠ [].
Proof.
  revert skip piece. induction s as [|c s IH]; intros skip piece; cbn; [done|].
  destruct skip; [|apply IH].
  destruct (McpTools.starts_with sep (c :: s)); [done | apply IH].
Qed.

Lemma split_go_skip (sep pre rest piece : jsstring) :
  McpTools.split_go sep (pre ++ rest) (length pre) piece
    = McpTools.split_go sep rest 0 piece.
Proof. induction pre as [|c pre IH]; cbn; [reflexivity | exact IH]. Qed.

Lemma join_with_cons (sep piece : jsstring) (pieces : list jsstring) :
  pieces ≠ [] →
  McpTools.join_with sep (piece :: pieces)
    = piece ++ sep ++ McpTools.join_with sep pieces.
Proof. destruct pieces; done. Qed.

Lemma split_go_join (sep : jsstring) (n : nat) :
  sep ≠ [] →
  ∀ s piece, (length s ≤ n)%nat →
    McpTools.join_with sep (McpTools.split_go sep s 0 piece) = piece ++ s.
Proof.
  intros Hsep. induction n as [|n IH]; intros s piece Hlen.
  - destruct s; [cbn; rewrite app_nil_r; done | cbn in Hlen; lia].
  - destruct s as [|c s]; [cbn; rewrite app_nil_r; done|].
    cbn [McpTools.split_go].
    destruct (McpTools.starts_with sep (c :: s)) eqn:Hst.
    + apply starts_with_app in Hst as [rest Hrest].
      destruct sep as [|a sep']; [done|]. cbn in Hrest.
      injection Hrest as -> ->.
      replace (length (a :: sep') - 1)%nat with (length sep') by (cbn; lia).
      rewrite split_go_skip, join_with_cons by apply split_go_nonempty.
      rewrite IH by (cbn in Hlen; rewrite length_app in Hlen; lia).
      reflexivity.
    + rewrite IH by (cbn in Hlen; lia). rewrite <- app_assoc. reflexivity.
Qed.

Lemma split_go_absent (sep s piece : jsstring) :
  McpTools.includes s sep = false →
  McpTools.split_go sep s 0 piece = [piece ++ s].
Proof.
  revert piece. induction s as [|c s IH]; intros piece; cbn.
  - rewrite app_nil_r. done.
  - intros [Hst Hin]%orb_false_iff. cbn in Hst. rewrite Hst.
    rewrite IH by exact Hin. rewrite <- app_assoc. reflexivity.
Qed.

Lemma starts_with_drop_app (pat s x : jsstring) (k : nat) :
  (k ≤ length s)%nat →
  McpTools.starts_with pat (drop k s) = true →
  McpTools.starts_with pat (drop k (s ++ x)) = true.
Proof.
  intros Hk [rest Hrest]%starts_with_app. apply starts_with_app.
  exists (rest ++ x). rewrite drop_app_le by exact Hk.
  rewrite Hrest, <- app_assoc. reflexivity.
Qed.

Lemma includes_false (sep t : jsstring) :
  sep ≠ [] →
  (∀ k, (k < length t)%nat → McpTools.starts_with sep (drop k t) = false) →
  McpTools.includes t sep = false.
Proof.
  intros Hsep. induction t as [|c t IH]; intros H.
  - destruct sep; done.
  - cbn [McpTools.includes]. apply orb_false_iff. split.
    + apply (H 0%nat). cbn. lia.
    + apply IH. intros k Hk. apply (H (S k)). cbn. lia.
Qed.

(** The pieces of a split: the separator occurs in none of them, and each
    cut is at the first place where the separator occurs, given that it
    does not start inside the piece collected so far. *)
Lemma split_go_pieces (sep : jsstring) (n : nat) :
  sep ≠ [] →
  ∀ s piece, (length s ≤ n)%nat →
    (∀ k, (k < length piece)%nat →
          McpTools.starts_with sep (drop k (piece ++ s)) = false) →
    (∀ p, p ∈ McpTools.split_go sep s 0 piece →
          McpTools.includes p sep = false) ∧
    (∀ (i : nat) p,
       McpTools.split_go sep s 0 piece !! i = Some p →
       (S i < length (McpTools.split_go sep s 0 piece))%nat →
       ∀ k, (k < length p)%nat →
            McpTools.starts_with sep (drop k (p ++ sep)) = false).
Proof.
  intros Hsep. induction n as [|n IH]; intros s piece Hlen Hinv;
    destruct s as [|c s]; try (cbn in Hlen; lia).
  1, 2: cbn; split;
    [intros p ->%list_elem_of_singleton; apply includes_false; [done|];
     intros k Hk; specialize (Hinv k Hk); rewrite app_nil_r in Hinv; done
    |intros i p _ Hlt; lia].
  cbn [McpTools.split_go].
  destruct (McpTools.starts_with sep (c :: s)) eqn:Hst.
  - apply starts_with_app in Hst as [rest Hrest].
    destruct sep as [|a sep']; [done|]. cbn in Hrest.
    injection Hrest as -> ->.
    replace (length (a :: sep') - 1)%nat with (length sep') by (cbn; lia).
    rewrite split_go_skip.
    destruct (IH rest []) as [IHa IHb].
    { cbn in Hlen. rewrite length_app in Hlen. lia. }
    { intros k Hk. cbn in Hk. lia. }
    split.
    + intros p [->|Hp]%elem_of_cons; [|apply IHa, Hp].
      apply includes_false; [done|]. intros k Hk.
      destruct (McpTools.starts_with (a :: sep') (drop k piece)) eqn:E;
        [|reflexivity].
      apply (starts_with_drop_app _ _ (a :: sep' ++ rest)) in E; [|lia].
      rewrite Hinv in E by exact Hk. discriminate E.
    + intros [|i] p Hi Hlt k Hk.
      * cbn in Hi. injection Hi as <-.
        destruct (McpTools.starts_with (a :: sep')
                    (drop k (piece ++ a :: sep'))) eqn:E; [|reflexivity].
        apply (starts_with_drop_app _ _ rest) in E;
          [|rewrite length_app; lia].
        rewrite <- app_assoc in E. cbn [app] in E.
        rewrite Hinv in E by exact Hk. discriminate E.
      * cbn in Hi, Hlt. apply (IHb i p Hi); [lia | exact Hk].
  - apply IH; [cbn in Hlen; lia|]. intros k Hk.
    rewrite <- app_assoc. cbn [app]. rewrite length_app in Hk. cbn in Hk.
    destruct (decide (k < length piece)%nat) as [Hlt|Hge];
      [apply Hinv; exact Hlt|].
    replace k with (length piece) by lia.
    rewrite drop_app_length. exact Hst.
Qed.

(** X28.  Replacing every exact occurrence of a text cuts the content at
    the occurrences, from left to right, and joins the pieces with the new
    text.  The pieces, joined with the old text, are the content; the old
    text occurs in none of them, and it does not start inside a piece that
    is followed by a cut, so each cut is at the first occurrence after the
    one before.  A content in which the old text occurs is cut at least
    once; the content is left as it is when the old text does not occur in
    it, and when the new text is the old one; an empty or missing old text
    makes the operation throw. *)
Theorem X28_replace_all_exact
    (regexp_valid : jsstring → bool)
    (regexp_test : jsstring → jsstring → jsstring → bool)
    (regexp_replace : jsstring → jsstring → jsstring → jsstring → jsstring)
    (string_replace : jsstring → jsstring → jsstring → jsstring)
    (u : McpTools.Update) (content : jsstring) :
  McpTools.type u = McpTools.Replace → McpTools.global u = true →
  McpTools.case_sensitive u = true →
  let apply := McpTools.apply_text_op regexp_valid regexp_test regexp_replace
                 string_replace u content in
  (McpTools.old_string u = None ∨ McpTools.old_string u = Some [] →
   apply = None) ∧
  (∀ old, McpTools.old_string u = Some old → old ≠ [] →
     ∃ pieces,
       pieces = McpTools.split_on old content ∧
       apply = Some (McpTools.join_with (McpTools.new_string u) pieces) ∧
       McpTools.join_with old pieces = content ∧
       (∀ p, p ∈ pieces → McpTools.includes p old = false) ∧
       (∀ (i : nat) p, pieces !! i = Some p → (S i < length pieces)%nat →
          ∀ k, (k < length p)%nat →
               McpTools.starts_with old (drop k (p ++ old)) = false) ∧
       (McpTools.includes content old = true → (2 ≤ length pieces)%nat) ∧
       (McpTools.includes content old = false → apply = Some content) ∧
       (McpTools.new_string u = old → apply = Some content)).
Proof.
  intros Ht Hg Hc apply. unfold apply, McpTools.apply_text_op.
  rewrite Ht, Hg, Hc. split.
  - intros [-> | ->]; reflexivity.
  - intros old -> Hold. destruct old as [|a old'] eqn:Eold; [done|].
    rewrite <- Eold in *.
    exists (McpTools.split_on old content).
    assert (Hjoin : McpTools.join_with old (McpTools.split_on old content)
                    = content).
    { unfold McpTools.split_on.
      rewrite (split_go_join old (length content)) by done.
      reflexivity. }
    destruct (split_go_pieces old (length content) Hold content [])
      as [Ha Hb]; [done | intros k Hk; cbn in Hk; lia |].
    fold (McpTools.split_on old content) in Ha, Hb.
    split; [reflexivity|]. split; [reflexivity|].
    split; [exact Hjoin|]. split; [exact Ha|]. split; [exact Hb|].
    split; [|split].
    + intros Hin.
      destruct (McpTools.split_on old content) as [|p [|q ps]] eqn:Es.
      * exfalso. exact (split_go_nonempty old content 0 [] Es).
      * cbn in Hjoin. subst p.
        rewrite (Ha content) in Hin by (apply list_elem_of_singleton; done).
        discriminate Hin.
      * cbn. lia.
    + intros Habs. unfold McpTools.split_on.
      rewrite split_go_absent by exact Habs. reflexivity.
    + intros ->. rewrite Hjoin. reflexivity.
Qed.

(** Every ["b"] of ["abcb"] replaced by ["xy"]. *)
Lemma X28_replace_all_exact_witness :
  let u := McpTools.mkUpdate McpTools.Replace (Some [98]) [120; 121] None None
             true true in
  let content := [97; 98; 99; 98] in
  let apply := McpTools.apply_text_op (λ _, true) (λ _ _ _, false)
                 (λ _ _ c _, c) (λ c _ _, c) u content in
  McpTools.type u = McpTools.Replace ∧ McpTools.global u = true ∧
  McpTools.case_sensitive u = true ∧ [98] ≠ [] ∧
  ∃ pieces,
    pieces = McpTools.split_on [98] content ∧
    apply = Some (McpTools.join_with [120; 121] pieces) ∧
    McpTools.join_with [98] pieces = content ∧
    (∀ p, p ∈ pieces → McpTools.includes p [98] = false) ∧
    (∀ (i : nat) p, pieces !! i = Some p → (S i < length pieces)%nat →
       ∀ k, (k < length p)%nat →
            McpTools.starts_with [98] (drop k (p ++ [98])) = false) ∧
    (McpTools.includes content [98] = true → (2 ≤ length pieces)%nat) ∧
    (McpTools.includes content [98] = false → apply = Some content) ∧
    (McpTools.new_string u = [98] → apply = Some content).
Proof.
  intros u content apply.
  assert (Hne : [98] ≠ ([] : jsstring)) by discriminate.
  repeat (split; [first [reflexivity | exact Hne]|]).
  destruct (X28_replace_all_exact (λ _, true) (λ _ _ _, false) (λ _ _ c _, c)
              (λ c _ _, c) u content eq_refl eq_refl eq_refl) as [_ H].
  exact (H [98] eq_refl Hne).
Defined.
